(** * Wisata Grobogan: the dashboard aggregates, the record store and the
    map marker synchronisation of [src/index.tsx].

    The development follows the source file from top to bottom:
    - [JS]: the ECMAScript values and built-ins the source relies on
      ([number], truthiness, [parseFloat], [parseInt], [Number], [||]);
    - the data model ([TourismType], [TouristSpot]) and the constant tables
      ([DISTRICTS], [DISTRICT_COORDINATES], [TOURISM_TYPES]);
    - [MapComponent]: the two effects of the Leaflet component, as
      transitions on the component's refs;
    - [InputForm], [Dashboard], [App]: the submit handler, the derived
      aggregates and the store operations;
    - the properties. *)

From Stdlib Require Import ZArith NArith QArith Qcanon String Ascii List Bool Lia.
From Stdlib Require Import DecimalString DecimalN DecimalPos Sorted Permutation.
From stdpp Require Import list strings sorting.
Import ListNotations.

Local Open Scope string_scope.

(** ** ECMAScript numbers and the built-ins used by the source *)

Module JS.

(** A Number value. [Finite q] is the double whose exact value is the
    rational [q]; the two zeros are identified, because the source only ever
    tests a zero for truthiness. *)
Inductive number : Type :=
| NaN
| Infinity (negative : bool)
| Finite (q : Q).

Definition zero : number := Finite 0.

(** [ToBoolean] on a Number: [NaN], [+0] and [-0] are falsy. *)
Definition truthy (n : number) : bool :=
  match n with
  | NaN => false
  | Infinity _ => true
  | Finite q => negb (Qeq_bool q 0)
  end.

(** [a || b] on Numbers. *)
Definition or_else (a b : number) : number := if truthy a then a else b.

(** A finite Number other than zero. *)
Definition nonzero_finite (n : number) : bool :=
  match n with
  | Finite q => negb (Qeq_bool q 0)
  | _ => false
  end.

Definition negate (n : number) : number :=
  match n with
  | NaN => NaN
  | Infinity s => Infinity (negb s)
  | Finite q => Finite (Qred (- q))
  end.

(** A Number other than [NaN]. *)
Definition is_number (n : number) : Prop := n <> NaN.

(** A Number with an integer value that is not negative. *)
Definition non_negative_integer (n : number) : Prop :=
  exists k : Z, (0 <= k)%Z /\
    match n with
    | Finite q => q == inject_Z k
    | _ => False
    end.

(** A Number without fractional part: an integer, or an infinity. *)
Definition whole (n : number) : Prop :=
  match n with
  | NaN => False
  | Infinity _ => True
  | Finite q => exists k : Z, q = inject_Z k
  end.

(** *** Rounding a real to binary64, ties to even *)

(** [n / d] rounded to the nearest integer, ties to even ([0 <= n], [0 < d]). *)
Definition round_half_even (n d : Z) : Z :=
  let k := (n / d)%Z in
  match (2 * (n mod d) ?= d)%Z with
  | Lt => k
  | Gt => (k + 1)%Z
  | Eq => if Z.even k then k else (k + 1)%Z
  end.

(** [2^e <= n / d] *)
Definition pow2_le (e : Z) (n d : positive) : bool :=
  if (0 <=? e)%Z then (Zpos d * 2 ^ e <=? Zpos n)%Z
  else (Zpos d <=? Zpos n * 2 ^ (- e))%Z.

(** [floor (log2 (n / d))] *)
Definition binade (n d : positive) : Z :=
  let e0 := (Z.log2 (Zpos n) - Z.log2 (Zpos d))%Z in
  if pow2_le e0 n d then e0 else (e0 - 1)%Z.

(** The double nearest to the positive rational [n / d]: 53 significant bits,
    exponents from -1022 (below that the spacing stays [2^-1074]) to 1023;
    a result of [2^1024] or more is [Infinity]. *)
Definition round64_pos (n d : positive) : number :=
  let e := Z.max (binade n d) (-1022) in
  let x := (e - 52)%Z in
  let k := if (0 <=? x)%Z then round_half_even (Zpos n) (Zpos d * 2 ^ x)
           else round_half_even (Zpos n * 2 ^ (- x)) (Zpos d) in
  if (1023 <? e)%Z || ((e =? 1023)%Z && (2 ^ 53 <=? k)%Z) then Infinity false
  else if (0 <=? x)%Z then Finite ((k * 2 ^ x)%Z # 1)
  else Finite (Qred (k # Z.to_pos (2 ^ (- x)))).

Definition of_Q (q : Q) : number :=
  match Qnum q with
  | Z0 => zero
  | Zpos n => round64_pos n (Qden q)
  | Zneg n => negate (round64_pos n (Qden q))
  end.

(** The value of a decimal literal [m * 10^e]. *)
Definition of_decimal (m e : Z) : number :=
  if (0 <=? e)%Z then of_Q ((m * 10 ^ e)%Z # 1)
  else of_Q (m # Z.to_pos (10 ^ (- e))).

(** Number addition. *)
Definition add (a b : number) : number :=
  match a, b with
  | NaN, _ | _, NaN => NaN
  | Infinity s, Infinity t => if Bool.eqb s t then Infinity s else NaN
  | Infinity s, Finite _ | Finite _, Infinity s => Infinity s
  | Finite x, Finite y => of_Q (x + y)
  end.

(** [a <= b]; every comparison with [NaN] is false. *)
Definition leb (a b : number) : bool :=
  match a, b with
  | NaN, _ | _, NaN => false
  | Infinity true, _ => true
  | _, Infinity false => true
  | Infinity false, _ => false
  | _, Infinity true => false
  | Finite x, Finite y => Qle_bool x y
  end.

(** [Math.min] and [Math.max] on Numbers other than [NaN]. *)
Definition min (a b : number) : number := if leb a b then a else b.
Definition max (a b : number) : number := if leb a b then b else a.

(** *** Scanning numeric literals

    A string holds the UTF-8 bytes of the text. [StrWhiteSpaceChar] is the
    white space and the line terminators of ECMAScript: TAB, LF, VT, FF, CR
    and SP in one byte, U+00A0 in two, and U+1680, U+2000 to U+200A, U+2028,
    U+2029, U+202F, U+205F, U+3000 and U+FEFF in three. *)

Definition is_white (c : ascii) : bool :=
  let n := nat_of_ascii c in
  ((9 <=? n)%nat && (n <=? 13)%nat) || (n =? 32)%nat.

Definition is_white2 (c1 c2 : ascii) : bool :=
  (nat_of_ascii c1 =? 194)%nat && (nat_of_ascii c2 =? 160)%nat.

Definition is_white3 (c1 c2 c3 : ascii) : bool :=
  let a := nat_of_ascii c1 in
  let b := nat_of_ascii c2 in
  let c := nat_of_ascii c3 in
  ((a =? 225) && (b =? 154) && (c =? 128))%nat
  || ((a =? 226)%nat && (b =? 128)%nat
      && (((128 <=? c) && (c <=? 138)) || (c =? 168) || (c =? 169)
          || (c =? 175))%nat)
  || ((a =? 226) && (b =? 129) && (c =? 159))%nat
  || ((a =? 227) && (b =? 128) && (c =? 128))%nat
  || ((a =? 239) && (b =? 187) && (c =? 191))%nat.

Fixpoint skip_white (s : string) : string :=
  match s with
  | String c1 r1 =>
      if is_white c1 then skip_white r1
      else
        match r1 with
        | String c2 r2 =>
            if is_white2 c1 c2 then skip_white r2
            else
              match r2 with
              | String c3 r3 =>
                  if is_white3 c1 c2 c3 then skip_white r3 else s
              | EmptyString => s
              end
        | EmptyString => s
        end
  | EmptyString => s
  end.

(** An optional sign: whether it is [-], and the rest. *)
Definition sign (s : string) : bool * string :=
  match s with
  | String "-" r => (true, r)
  | String "+" r => (false, r)
  | _ => (false, s)
  end.

(** The value of a digit in the given radix, when it is one. *)
Definition digit_value (radix : Z) (c : ascii) : option Z :=
  let n := Z.of_nat (nat_of_ascii c) in
  let v := if (48 <=? n)%Z && (n <=? 57)%Z then Some (n - 48)%Z
           else if (97 <=? n)%Z && (n <=? 122)%Z then Some (n - 87)%Z
           else if (65 <=? n)%Z && (n <=? 90)%Z then Some (n - 55)%Z
           else None in
  match v with
  | Some d => if (d <? radix)%Z then Some d else None
  | None => None
  end.

(** The longest prefix of digits: its value on top of [acc], how many digits
    were read, and the rest. *)
Fixpoint digits (radix : Z) (s : string) (acc : Z) (count : nat)
  : Z * nat * string :=
  match s with
  | String c r =>
      match digit_value radix c with
      | Some d => digits radix r (acc * radix + d)%Z (S count)
      | None => (acc, count, s)
      end
  | EmptyString => (acc, count, s)
  end.

(** [ExponentPart]: [e] or [E], an optional sign, at least one digit.
    Anything else is left unread and counts as exponent 0. *)
Definition exponent (s : string) : Z :=
  match s with
  | String c r =>
      if Ascii.eqb c "e" || Ascii.eqb c "E" then
        let '(neg, r') := sign r in
        let '(v, count, _) := digits 10 r' 0%Z 0%nat in
        match count with
        | O => 0%Z
        | S _ => if neg then (- v)%Z else v
        end
      else 0%Z
  | EmptyString => 0%Z
  end.

(** [parseFloat(s)]: leading white space is skipped, the longest prefix that
    is a [StrDecimalLiteral] is read, and [NaN] is returned when there is
    none. *)
Definition parseFloat (s : string) : number :=
  let '(neg, s1) := sign (skip_white s) in
  if String.prefix "Infinity" s1 then Infinity neg
  else
    let '(ip, ni, s2) := digits 10 s1 0%Z 0%nat in
    let '(fp, nf, s3) :=
      match s2 with
      | String "." r => digits 10 r ip 0%nat
      | _ => (ip, 0%nat, s2)
      end in
    match (ni + nf)%nat with
    | O => NaN
    | S _ =>
        let v := of_decimal fp (exponent s3 - Z.of_nat nf) in
        if neg then negate v else v
    end.

(** [parseInt(s)] with no radix argument: radix 16 after a [0x] prefix,
    radix 10 otherwise; [NaN] when no digit can be read. *)
Definition parseInt (s : string) : number :=
  let '(neg, s1) := sign (skip_white s) in
  let '(radix, s2) :=
    match s1 with
    | String "0" (String "x" r) | String "0" (String "X" r) => (16%Z, r)
    | _ => (10%Z, s1)
    end in
  let '(v, count, _) := digits radix s2 0%Z 0%nat in
  match count with
  | O => NaN
  | S _ => let n := of_Q (v # 1) in if neg then negate n else n
  end.

(** [Number(x)] for [x : number | undefined]. *)
Definition Number (x : option number) : number :=
  match x with
  | Some n => n
  | None => NaN
  end.

(** [s || d] on [string | undefined]: the empty string is falsy. *)
Definition str_or (s : option string) (d : string) : string :=
  match s with
  | Some (String c r) => String c r
  | _ => d
  end.

End JS.

Import JS.

(** ** Types and constants *)

Inductive TourismType : Type := Wisata_Air | Wisata_Religi | Wisata_Alam.

Inductive DisasterRisk : Type := Laka_Air | Banjir | Tanah_Longsor.

Definition TourismType_eqb (a b : TourismType) : bool :=
  match a, b with
  | Wisata_Air, Wisata_Air
  | Wisata_Religi, Wisata_Religi
  | Wisata_Alam, Wisata_Alam => true
  | _, _ => false
  end.

Definition DisasterRisk_eqb (a b : DisasterRisk) : bool :=
  match a, b with
  | Laka_Air, Laka_Air
  | Banjir, Banjir
  | Tanah_Longsor, Tanah_Longsor => true
  | _, _ => false
  end.

(** [latitude] and [longitude] are optional strings; [None] is a missing
    property. *)
Record TouristSpot : Type := {
  id : string;
  name : string;
  village : string;
  district : string;
  type : TourismType;
  capacity : number;
  risks : list DisasterRisk;
  latitude : option string;
  longitude : option string
}.

Definition DISTRICTS : list string := [
  "Brati"; "Gabus"; "Geyer"; "Godong"; "Grobogan";
  "Gubug"; "Karangrayung"; "Kedungjati"; "Klambu"; "Kradenan";
  "Ngaringan"; "Penawangan"; "Pulokulon"; "Purwodadi";
  "Tanggungharjo"; "Tawangharjo"; "Tegowanu"; "Toroh"; "Wirosari"
].

Definition LatLng : Type := number * number.

(** A coordinate literal with four decimals, given in ten-thousandths:
    [deg (-70289)] is the literal [-7.0289]. *)
Definition deg (m : Z) : number := of_decimal m (-4).

Definition DISTRICT_COORDINATES : list (string * LatLng) := [
  ("Brati", (deg (-70289), deg 1108654));
  ("Gabus", (deg (-71643), deg 1110505));
  ("Geyer", (deg (-72188), deg 1109009));
  ("Godong", (deg (-70326), deg 1107107));
  ("Grobogan", (deg (-69959), deg 1109329));
  ("Gubug", (deg (-70604), deg 1106409));
  ("Karangrayung", (deg (-71158), deg 1107483));
  ("Kedungjati", (deg (-71654), deg 1106132));
  ("Klambu", (deg (-70097), deg 1108351));
  ("Kradenan", (deg (-71581), deg 1111378));
  ("Ngaringan", (deg (-70543), deg 1111098));
  ("Penawangan", (deg (-70818), deg 1108251));
  ("Pulokulon", (deg (-71264), deg 1110028));
  ("Purwodadi", (deg (-70867), deg 1109157));
  ("Tanggungharjo", (deg (-70945), deg 1105835));
  ("Tawangharjo", (deg (-70583), deg 1109856));
  ("Tegowanu", (deg (-70645), deg 1105401));
  ("Toroh", (deg (-71353), deg 1108927));
  ("Wirosari", (deg (-70955), deg 1110660))
].

Definition TOURISM_TYPES : list TourismType :=
  [Wisata_Alam; Wisata_Air; Wisata_Religi].

Definition RISK_TYPES : list DisasterRisk := [Laka_Air; Banjir; Tanah_Longsor].

(** [DISTRICT_COORDINATES] is an object literal, so reading a property of it
    also finds the properties of [Object.prototype]: functions, and the
    prototype itself under [__proto__]. They are truthy and not iterable. *)
Definition Object_prototype : list string := [
  "constructor"; "__proto__"; "hasOwnProperty"; "isPrototypeOf";
  "propertyIsEnumerable"; "toLocaleString"; "toString"; "valueOf";
  "__defineGetter__"; "__defineSetter__"; "__lookupGetter__";
  "__lookupSetter__"
].

Inductive property : Type :=
| own (c : LatLng)
| inherited
| undefined.

Fixpoint assoc (k : string) (table : list (string * LatLng)) : option LatLng :=
  match table with
  | (k', v) :: rest => if String.eqb k k' then Some v else assoc k rest
  | [] => None
  end.

(** [DISTRICT_COORDINATES[key]] *)
Definition DISTRICT_COORDINATES_get (key : string) : property :=
  match assoc key DISTRICT_COORDINATES with
  | Some c => own c
  | None =>
      if existsb (String.eqb key) Object_prototype then inherited
      else undefined
  end.

(** ** The Leaflet map component *)

Module MapComponent.

(** A marker object; [marker_id] stands for the identity of the object, and
    [popup] holds the three values interpolated into the popup. *)
Record Marker : Type := {
  marker_id : nat;
  latlng : LatLng;
  popup : string * string * TourismType
}.

(** [LatLngBounds]: no corners yet, or south-west and north-east. *)
Definition LatLngBounds : Type := option (LatLng * LatLng).

(** The viewport of the map, as the call that last set it. *)
Inductive View : Type :=
| setView (center : LatLng) (zoom : Z)
| fitBounds (bounds : LatLngBounds) (padding : Z * Z).

Record LeafletMap : Type := {
  tiles : list string;
  layers : list Marker;
  view : View
}.

(** The component's refs; [allocated] counts the marker objects created so
    far and gives the next one its identity. *)
Record Refs : Type := {
  mapInstanceRef : option LeafletMap;
  markersRef : list Marker;
  allocated : nat
}.

Definition initial : Refs :=
  {| mapInstanceRef := None; markersRef := []; allocated := 0 |}.

Definition default_center : LatLng := (deg (-70867), deg 1109157).

Definition osm : string := "https://{s}.tile.openstreetmap.org/{z}/{x}/{y}.png".

(** The first effect: the map is created once, when the container is there
    and Leaflet ([window.L]) is loaded. *)
Definition mount (container L : bool) (r : Refs) : Refs :=
  match mapInstanceRef r with
  | None =>
      if container && L then
        {| mapInstanceRef :=
             Some {| tiles := [osm]; layers := [];
                     view := setView default_center 10 |};
           markersRef := markersRef r;
           allocated := allocated r |}
      else r
  | Some _ => r
  end.

(** Its cleanup: [map.remove()] and the ref is reset. *)
Definition unmount (r : Refs) : Refs :=
  {| mapInstanceRef := None;
     markersRef := markersRef r;
     allocated := allocated r |}.

(** An operation on the map object that [mapInstanceRef] points to. *)
Definition on_map (f : LeafletMap -> LeafletMap) (r : Refs) : Refs :=
  {| mapInstanceRef := option_map f (mapInstanceRef r);
     markersRef := markersRef r;
     allocated := allocated r |}.

(** [marker.remove()] takes that marker object off the map. *)
Definition remove (marker : Marker) (m : LeafletMap) : LeafletMap :=
  {| tiles := tiles m;
     layers := List.filter
                 (fun l => negb (Nat.eqb (marker_id l) (marker_id marker)))
                 (layers m);
     view := view m |}.

(** [marker.addTo(map)] *)
Definition addTo (marker : Marker) (m : LeafletMap) : LeafletMap :=
  {| tiles := tiles m; layers := layers m ++ [marker]; view := view m |}.

Definition set_view (v : View) (m : LeafletMap) : LeafletMap :=
  {| tiles := tiles m; layers := layers m; view := v |}.

(** The coordinates of a record after the fallback; [None] is the TypeError
    of destructuring a value that is not iterable. *)
Definition coordinates (spot : TouristSpot) : option LatLng :=
  let lat := parseFloat (str_or (latitude spot) "0") in
  let lng := parseFloat (str_or (longitude spot) "0") in
  if negb (truthy lat) || negb (truthy lng) then
    match DISTRICT_COORDINATES_get (district spot) with
    | own c => Some c
    | inherited => None
    | undefined => Some (lat, lng)
    end
  else Some (lat, lng).

Definition markerColor (spot : TouristSpot) : string :=
  if TourismType_eqb (type spot) Wisata_Alam then "green"
  else if TourismType_eqb (type spot) Wisata_Air then "blue"
  else "violet".

(** What one record contributes. *)
Inductive resolution : Type :=
| placed (at_ : LatLng)
| skipped
| raised.

Definition resolve (spot : TouristSpot) : resolution :=
  match coordinates spot with
  | None => raised
  | Some (lat, lng) =>
      if truthy lat && truthy lng then placed (lat, lng) else skipped
  end.

(** The resolution order in the words of the specification: the record's
    own coordinates when both parse to non-zero finite numbers, else the
    centroid of its district when the table has one, else no marker. *)
Definition specified (spot : TouristSpot) : resolution :=
  let lat := parseFloat (str_or (latitude spot) "0") in
  let lng := parseFloat (str_or (longitude spot) "0") in
  if nonzero_finite lat && nonzero_finite lng then placed (lat, lng)
  else match assoc (district spot) DISTRICT_COORDINATES with
       | Some c => placed c
       | None => skipped
       end.

(** How a call into Leaflet ends. *)
Inductive call : Type := returns | throws | hangs.

(** How the effect ends: normally, with the TypeError of the loop, with an
    error thrown inside [fitBounds], or not at all because [fitBounds] does
    not return. In the last case the state given is the one [fitBounds] was
    called in. *)
Inductive outcome : Type := completed | TypeError | LeafletError | unresponsive.

(** The body of [spots.forEach]. *)
Definition each (spot : TouristSpot) (r : Refs) : Refs * outcome :=
  match resolve spot with
  | raised => (r, TypeError)
  | skipped => (r, completed)
  | placed p =>
      let marker := {| marker_id := allocated r;
                       latlng := p;
                       popup := (name spot, district spot, type spot) |} in
      ({| mapInstanceRef := option_map (addTo marker) (mapInstanceRef r);
          markersRef := markersRef r ++ [marker];
          allocated := S (allocated r) |},
       completed)
  end.

Fixpoint forEach (spots : list TouristSpot) (r : Refs) : Refs * outcome :=
  match spots with
  | [] => (r, completed)
  | spot :: rest =>
      match each spot r with
      | (r', completed) => forEach rest r'
      | (r', error) => (r', error)
      end
  end.

(** [bounds.extend(latlng)] *)
Definition extend (b : LatLngBounds) (p : LatLng) : LatLngBounds :=
  match b with
  | None => Some (p, p)
  | Some (sw, ne) =>
      Some ((JS.min (fst p) (fst sw), JS.min (snd p) (snd sw)),
            (JS.max (fst p) (fst ne), JS.max (snd p) (snd ne)))
  end.

(** [L.featureGroup(markers).getBounds()] *)
Definition getBounds (markers : list Marker) : LatLngBounds :=
  fold_left (fun b marker => extend b (latlng marker)) markers None.

(** [markersRef.current.forEach(marker => marker.remove());
    markersRef.current = []] *)
Definition clear (r : Refs) : Refs :=
  let r' := fold_left (fun r marker => on_map (remove marker) r)
                      (markersRef r) r in
  {| mapInstanceRef := mapInstanceRef r';
     markersRef := [];
     allocated := allocated r' |}.

Section Leaflet.

(** Leaflet is not part of the repository. Whether [map.fitBounds] returns
    on given bounds (it throws on an infinite longitude, and a huge finite
    one keeps it busy for ever) is left as a parameter. *)
Variable fitBounds_call : LeafletMap -> LatLngBounds -> call.

(** [mapInstanceRef.current.fitBounds(group.getBounds(), { padding: [50, 50] })] *)
Definition fit (r : Refs) : Refs * outcome :=
  match mapInstanceRef r with
  | Some m =>
      match fitBounds_call m (getBounds (markersRef r)) with
      | returns =>
          (on_map (set_view (fitBounds (getBounds (markersRef r)) (50, 50)%Z))
                  r,
           completed)
      | throws => (r, LeafletError)
      | hangs => (r, unresponsive)
      end
  | None => (r, TypeError)
  end.

(** The second effect: runs when [spots] changes. *)
Definition sync (L : bool) (spots : list TouristSpot) (r : Refs)
  : Refs * outcome :=
  match mapInstanceRef r with
  | Some _ =>
      if L then
        match forEach spots (clear r) with
        | (r1, completed) =>
            if (0 <? length (markersRef r1))%nat then fit r1
            else (on_map (set_view (setView default_center 10)) r1, completed)
        | (r1, raised_in_loop) => (r1, raised_in_loop)
        end
      else (r, completed)
  | None => (r, completed)
  end.

End Leaflet.

(** What a marker shows, whichever object it is. *)
Definition content (marker : Marker) : LatLng * (string * string * TourismType) :=
  (latlng marker, popup marker).

(** What a record list stands for on the map: one entry for each record that
    is placed, in the order of the list. *)
Definition derived (spots : list TouristSpot)
  : list (LatLng * (string * string * TourismType)) :=
  flat_map (fun spot =>
              match resolve spot with
              | placed p => [(p, (name spot, district spot, type spot))]
              | _ => []
              end)
           spots.

(** The records the loop gets through: those before the first that raises. *)
Fixpoint processed (spots : list TouristSpot) : list TouristSpot :=
  match spots with
  | [] => []
  | spot :: rest =>
      match resolve spot with
      | raised => []
      | _ => spot :: processed rest
      end
  end.

(** The marker objects the loop creates, the first with identity [n]. *)
Fixpoint markers_from (n : nat) (spots : list TouristSpot) : list Marker :=
  match spots with
  | [] => []
  | spot :: rest =>
      match resolve spot with
      | placed p =>
          {| marker_id := n; latlng := p;
             popup := (name spot, district spot, type spot) |}
          :: markers_from (S n) rest
      | skipped => markers_from n rest
      | raised => []
      end
  end.

(** Whether some record of the list raises. *)
Definition raises (spots : list TouristSpot) : bool :=
  existsb (fun spot => match resolve spot with raised => true | _ => false end)
          spots.

(** The bounding box of a list of positions. *)
Definition bounds (positions : list LatLng) : LatLngBounds :=
  fold_left extend positions None.

(** A position without [NaN] in it. *)
Definition is_position (p : LatLng) : Prop :=
  is_number (fst p) /\ is_number (snd p).

(** Whether a position lies in a box, its edges included. *)
Definition contains (b : LatLngBounds) (p : LatLng) : bool :=
  match b with
  | None => false
  | Some (sw, ne) =>
      JS.leb (fst sw) (fst p) && JS.leb (fst p) (fst ne) &&
      JS.leb (snd sw) (snd p) && JS.leb (snd p) (snd ne)
  end.

(** Taking a list of markers off a map, one after the other. *)
Definition strip (markers : list Marker) (m : LeafletMap) : LeafletMap :=
  fold_left (fun m marker => remove marker m) markers m.

(** The markers on the map, and the viewport, as an observer sees them. *)
Definition surface (r : Refs) : list Marker :=
  match mapInstanceRef r with
  | Some m => layers m
  | None => []
  end.

Definition viewport (r : Refs) : option View :=
  option_map view (mapInstanceRef r).

(** The states the component goes through: the two effects and the cleanup
    run in any order with any arguments, and the user may move the viewport
    in between. *)
Inductive reachable (fitBounds_call : LeafletMap -> LatLngBounds -> call)
  : Refs -> Prop :=
| reach_initial : reachable fitBounds_call initial
| reach_mount (container L : bool) (r : Refs) :
    reachable fitBounds_call r ->
    reachable fitBounds_call (mount container L r)
| reach_unmount (r : Refs) :
    reachable fitBounds_call r -> reachable fitBounds_call (unmount r)
| reach_sync (L : bool) (spots : list TouristSpot) (r : Refs) :
    reachable fitBounds_call r ->
    reachable fitBounds_call (fst (sync fitBounds_call L spots r))
| reach_moved (v : View) (r : Refs) :
    reachable fitBounds_call r ->
    reachable fitBounds_call (on_map (set_view v) r).

(** Every marker on the map is one that [markersRef] holds, and the markers
    held were all created before. *)
Definition tracked (r : Refs) : Prop :=
  (forall marker, In marker (surface r) -> In marker (markersRef r)) /\
  Forall (fun marker => (marker_id marker < allocated r)%nat) (markersRef r).

End MapComponent.

(** ** The input form *)

Module InputForm.

(** [Partial<TouristSpot>]: every property may be missing. *)
Record FormData : Type := {
  form_name : option string;
  form_village : option string;
  form_district : option string;
  form_type : option TourismType;
  form_capacity : option number;
  form_risks : option (list DisasterRisk);
  form_latitude : option string;
  form_longitude : option string
}.

(** The form as first shown, and as reset after a submission. *)
Definition blank : FormData :=
  {| form_name := Some "";
     form_village := Some "";
     form_district := hd_error DISTRICTS;
     form_type := Some Wisata_Alam;
     form_capacity := Some zero;
     form_risks := Some [];
     form_latitude := Some "";
     form_longitude := Some "" |}.

(** A text field left empty: the property is missing or the empty string. *)
Definition missing (field : option string) : Prop :=
  field = None \/ field = Some "".

(** A valid floating-point number of HTML: an optional [-], then digits, or
    a point and digits, or both, then optionally [e] or [E], an optional
    sign and digits; nothing before or after. *)
Definition valid_floating_point_number (s : string) : bool :=
  let s1 := match s with
            | String "-" r => r
            | _ => s
            end in
  let '(_, ni, s2) := digits 10 s1 0%Z 0%nat in
  let '(mantissa, s3) :=
    match s2 with
    | String "." r =>
        let '(_, nf, r') := digits 10 r 0%Z 0%nat in ((0 <? nf)%nat, r')
    | _ => ((0 <? ni)%nat, s2)
    end in
  mantissa &&
  match s3 with
  | EmptyString => true
  | String c r =>
      (Ascii.eqb c "e" || Ascii.eqb c "E") &&
      let '(_, r1) := sign r in
      let '(_, ne, r2) := digits 10 r1 0%Z 0%nat in
      (0 <? ne)%nat && String.eqb r2 ""
  end.

(** [e.target.value] of an [<input type="number">] holding the typed text:
    the text when it is a valid floating-point number with a finite value,
    the empty string otherwise. *)
Definition input_value (typed : string) : string :=
  if valid_floating_point_number typed then
    match parseFloat typed with
    | Finite _ => typed
    | _ => ""
    end
  else "".

(** [onChange] of the capacity input, for the text typed into it *)
Definition change_capacity (typed : string) (formData : FormData) : FormData :=
  {| form_name := form_name formData;
     form_village := form_village formData;
     form_district := form_district formData;
     form_type := form_type formData;
     form_capacity := Some (parseInt (input_value typed));
     form_risks := form_risks formData;
     form_latitude := form_latitude formData;
     form_longitude := form_longitude formData |}.

(** The form has no [noValidate], so the browser checks the constraints of
    its controls before it fires [submit]. The controls show the form data:
    name and village are [required]; the capacity input has [min="0"] and
    the default step of 1, and shows nothing for [NaN] and the infinities,
    which are not valid values of a number input. *)
Definition value_missing (field : option string) : bool :=
  match field with
  | Some (String _ _) => false
  | _ => true
  end.

Definition range_underflow (shown : option number) : bool :=
  match shown with
  | Some (Finite q) => negb (Qle_bool 0 q)
  | _ => false
  end.

Definition step_mismatch (shown : option number) : bool :=
  match shown with
  | Some (Finite q) => negb (Pos.eqb (Qden (Qred q)) 1)
  | _ => false
  end.

Definition checkValidity (formData : FormData) : bool :=
  negb (value_missing (form_name formData)) &&
  negb (value_missing (form_village formData)) &&
  negb (range_underflow (form_capacity formData)) &&
  negb (step_mismatch (form_capacity formData)).

(** [Date.now().toString()], for the clock reading [now] in milliseconds *)
Definition timestamp (now : N) : string :=
  NilZero.string_of_uint (N.to_uint now).

Definition incomplete : string := "Mohon lengkapi nama dan lokasi desa.".
Definition saved : string := "Data berhasil disimpan!".

(** [handleSubmit]: the effect on the store behind [onAddSpot], the form
    data afterwards, and the alert shown. A missing or empty string is
    falsy. *)
Definition handleSubmit {Store : Type}
    (onAddSpot : TouristSpot -> Store -> Store)
    (now : N) (formData : FormData) (store : Store)
  : Store * FormData * string :=
  match form_name formData, form_village formData with
  | Some (String a n), Some (String b v) =>
      let newSpot :=
        {| id := timestamp now;
           name := String a n;
           village := String b v;
           district := str_or (form_district formData) (hd "" DISTRICTS);
           type := match form_type formData with
                   | Some t => t
                   | None => Wisata_Alam
                   end;
           capacity := or_else (Number (form_capacity formData)) zero;
           risks := match form_risks formData with
                    | Some l => l
                    | None => []
                    end;
           latitude := form_latitude formData;
           longitude := form_longitude formData |} in
      (onAddSpot newSpot store, blank, saved)
  | _, _ => (store, formData, incomplete)
  end.

(** [formData.risks || []] *)
Definition currentRisks (formData : FormData) : list DisasterRisk :=
  match form_risks formData with
  | Some l => l
  | None => []
  end.

(** [toggleRisk]: a risk that is in the list is filtered out of it, another
    one is appended. *)
Definition toggleRisk (risk : DisasterRisk) (formData : FormData) : FormData :=
  {| form_name := form_name formData;
     form_village := form_village formData;
     form_district := form_district formData;
     form_type := form_type formData;
     form_capacity := form_capacity formData;
     form_risks :=
       Some (if existsb (DisasterRisk_eqb risk) (currentRisks formData)
             then List.filter (fun r => negb (DisasterRisk_eqb r risk))
                              (currentRisks formData)
             else (currentRisks formData ++ [risk])%list);
     form_latitude := form_latitude formData;
     form_longitude := form_longitude formData |}.

End InputForm.

(** ** The dashboard aggregates *)

Module Dashboard.

Section Derived.

Variable selectedDistrict : string.
Variable spots : list TouristSpot.

Definition filteredSpots : list TouristSpot :=
  if String.eqb selectedDistrict "Semua" then spots
  else List.filter (fun s => String.eqb (district s) selectedDistrict) spots.

Definition totalCapacity : number :=
  fold_left (fun acc curr => JS.add acc (capacity curr)) filteredSpots zero.

Definition byType : list (TourismType * nat) :=
  map (fun t =>
         (t, length (List.filter (fun s => TourismType_eqb (type s) t)
                                 filteredSpots)))
      TOURISM_TYPES.

Definition displayDistricts : list string :=
  if String.eqb selectedDistrict "Semua" then DISTRICTS
  else [selectedDistrict].

Definition byDistrict : list (string * nat) :=
  map (fun d =>
         (d, length (List.filter (fun s => String.eqb (district s) d)
                                 filteredSpots)))
      displayDistricts.

(** The first KPI card shows [filteredSpots.length]. *)
Definition totalCount : nat := length filteredSpots.

End Derived.

(** The records listed in the detail card of a type:
    [filteredSpots.filter(s => s.type === cat.type)]. *)
Definition detail (selectedDistrict : string) (spots : list TouristSpot)
    (t : TourismType) : list TouristSpot :=
  List.filter (fun s => TourismType_eqb (type s) t)
              (filteredSpots selectedDistrict spots).

(** The sum of the counts of a breakdown. *)
Definition total {K : Type} (counts : list (K * nat)) : nat :=
  list_sum (map snd counts).

(** How many records of [l] are in a district of [ds], and in district [d]. *)
Definition among (ds : list string) (l : list TouristSpot) : nat :=
  length (List.filter (fun s => existsb (String.eqb (district s)) ds) l).

Definition per_district (l : list TouristSpot) (d : string) : nat :=
  length (List.filter (fun s => String.eqb (district s) d) l).

End Dashboard.

(** ** The application state *)

Module App.

Record State : Type := {
  spots : list TouristSpot;
  activeTab : string
}.

Definition initial : State := {| spots := []; activeTab := "dashboard" |}.

Definition addSpot (spot : TouristSpot) (st : State) : State :=
  {| spots := spot :: spots st; activeTab := "dashboard" |}.

(** [confirmed] is the answer to the confirmation dialog. *)
Definition deleteSpot (confirmed : bool) (id' : string) (st : State) : State :=
  if confirmed then
    {| spots := List.filter (fun s => negb (String.eqb (id s) id')) (spots st);
       activeTab := activeTab st |}
  else st.

(** Submitting the form of the input tab. *)
Definition submit (now : N) (formData : InputForm.FormData) (st : State)
  : State * InputForm.FormData * string :=
  InputForm.handleSubmit addSpot now formData st.

(** A click on the submit button: [handleSubmit] runs when the browser finds
    the form valid; otherwise the browser points at the invalid control and
    nothing else happens. *)
Definition requestSubmit (now : N) (formData : InputForm.FormData) (st : State)
  : option (State * InputForm.FormData * string) :=
  if InputForm.checkValidity formData then Some (submit now formData st)
  else None.

(** What the user does to the store: a submission of the form at a clock
    reading, or a click on a row's delete button with the answer given to
    the dialog. *)
Inductive event : Type :=
| submission (now : N) (formData : InputForm.FormData)
| deletion (confirmed : bool) (id' : string).

Definition handle (st : State) (e : event) : State :=
  match e with
  | submission now formData => fst (fst (submit now formData st))
  | deletion confirmed id' => deleteSpot confirmed id' st
  end.

Definition run (events : list event) (st : State) : State :=
  fold_left handle events st.

(** The clock readings of the submissions, in order. *)
Definition clock (events : list event) : list N :=
  flat_map (fun e => match e with
                     | submission now _ => [now]
                     | deletion _ _ => []
                     end)
           events.

End App.

(** ** Sample records *)

Module Samples.

(** The record of the end-to-end scenario: no coordinates typed in. *)
Definition bledug_kuwu : TouristSpot :=
  {| id := "1700000000000"; name := "Bledug Kuwu"; village := "Kuwu";
     district := "Kradenan"; type := Wisata_Alam; capacity := Finite 500;
     risks := []; latitude := Some ""; longitude := Some "" |}.

(** A record with coordinates of its own. *)
Definition kedung_ombo : TouristSpot :=
  {| id := "1700000000001"; name := "Waduk Kedung Ombo"; village := "Rambat";
     district := "Geyer"; type := Wisata_Air; capacity := Finite 1000;
     risks := [Laka_Air]; latitude := Some "-7.09"; longitude := Some "110.92" |}.

(** A stored record whose district is not one of the nineteen. *)
Definition stray : TouristSpot :=
  {| id := "1700000000002"; name := "Pantai"; village := "Pesisir";
     district := "Atlantis"; type := Wisata_Air; capacity := Finite 40;
     risks := []; latitude := None; longitude := None |}.

(** A record whose latitude text is [Infinity]. *)
Definition polar : TouristSpot :=
  {| id := "1700000000003"; name := "Kutub"; village := "Utara";
     district := "Purwodadi"; type := Wisata_Alam; capacity := Finite 0;
     risks := []; latitude := Some "Infinity"; longitude := Some "110.9157" |}.

(** A stored record whose district is the name of a property that every
    object inherits. *)
Definition inherited_name : TouristSpot :=
  {| id := "1700000000004"; name := "Taman"; village := "Kota";
     district := "constructor"; type := Wisata_Religi; capacity := Finite 10;
     risks := []; latitude := Some ""; longitude := None |}.

(** Stored lists. *)
Definition two_sites : list TouristSpot := [bledug_kuwu; kedung_ombo].
Definition three_sites : list TouristSpot := [bledug_kuwu; stray; kedung_ombo].

(** A Leaflet whose [fitBounds] always returns. *)
Definition well_behaved (m : MapComponent.LeafletMap)
    (b : MapComponent.LatLngBounds) : MapComponent.call :=
  MapComponent.returns.

(** The map component once mounted and synchronised with [two_sites]. *)
Definition shown : MapComponent.Refs :=
  fst (MapComponent.sync well_behaved true two_sites
         (MapComponent.mount true true MapComponent.initial)).

(** A decimal numeral of 310 digits, more than a double can hold, and the
    same numeral scaled down by an exponent to a number a double holds. *)
Definition long_numeral : string :=
  string_of_list_ascii (repeat "9"%char 310).

Definition scaled_numeral : string := long_numeral ++ "e-5".

(** A filled-in form. *)
Definition filled : InputForm.FormData :=
  {| InputForm.form_name := Some "Bledug Kuwu";
     InputForm.form_village := Some "Kuwu";
     InputForm.form_district := Some "Kradenan";
     InputForm.form_type := Some Wisata_Alam;
     InputForm.form_capacity := Some (Finite 500);
     InputForm.form_risks := Some [];
     InputForm.form_latitude := Some "";
     InputForm.form_longitude := Some "" |}.

End Samples.

(** * Properties *)

(** ** List facts shared by the store and the dashboard *)

Section Filtering.

Context {A : Type}.
Implicit Types (f : A -> bool) (l : list A).

Lemma filter_sublist f l : sublist (List.filter f l) l.
Proof.
  induction l as [|x l IH]; simpl.
  - constructor.
  - destruct (f x); [apply sublist_skip | apply sublist_cons]; exact IH.
Qed.

Lemma filter_all f l :
  (forall x, In x l -> f x = true) -> List.filter f l = l.
Proof.
  induction l as [|x l IH]; simpl; intros H; [reflexivity|].
  rewrite (H x (or_introl eq_refl)), IH; [reflexivity|].
  intros y Hy. apply H. right. exact Hy.
Qed.

(** A filter splits a list in two parts by length. *)
Lemma filter_split_length f l :
  (length (List.filter f l)
   + length (List.filter (fun x => negb (f x)) l) = length l)%nat.
Proof.
  induction l as [|x l IH]; simpl; [reflexivity|].
  destruct (f x); simpl; lia.
Qed.

End Filtering.

(** ** The dashboard *)

Section DashboardFacts.

Import Dashboard.

Lemma Semua_not_a_district : ~ In "Semua" DISTRICTS.
Proof.
  unfold DISTRICTS. simpl. intros H.
  repeat (destruct H as [H|H]; [discriminate H|]). exact H.
Qed.

Lemma DISTRICTS_NoDup : NoDup DISTRICTS.
Proof. apply (bool_decide_unpack _). vm_compute. reflexivity. Qed.

Lemma filteredSpots_Semua spots : filteredSpots "Semua" spots = spots.
Proof. reflexivity. Qed.

Lemma filteredSpots_district D spots :
  D <> "Semua" ->
  filteredSpots D spots
  = List.filter (fun s => String.eqb (district s) D) spots.
Proof.
  intros HD. unfold filteredSpots.
  destruct (String.eqb_spec D "Semua") as [E|_]; [contradiction|reflexivity].
Qed.

Lemma per_district_cons s l d :
  per_district (s :: l) d
  = ((if String.eqb (district s) d then 1 else 0) + per_district l d)%nat.
Proof. unfold per_district. simpl. destruct (String.eqb _ _); reflexivity. Qed.

(** A record adds one to at most one cell of a grid without repeated
    names. *)
Lemma one_cell s ds :
  NoDup ds ->
  list_sum (map (fun d => if String.eqb (district s) d then 1%nat else 0%nat) ds)
  = if existsb (String.eqb (district s)) ds then 1%nat else 0%nat.
Proof.
  induction 1 as [|d ds Hd _ IH]; simpl; [reflexivity|].
  rewrite IH. destruct (String.eqb_spec (district s) d) as [E|N]; simpl.
  - destruct (existsb _ ds) eqn:Ex; [|reflexivity].
    exfalso. apply Hd. apply existsb_exists in Ex as (d' & Hin & Heq).
    apply String.eqb_eq in Heq. rewrite <- E, Heq. apply list_elem_of_In. exact Hin.
  - reflexivity.
Qed.

Lemma list_sum_plus {K : Type} (f g : K -> nat) (ks : list K) :
  list_sum (map (fun k => (f k + g k)%nat) ks)
  = (list_sum (map f ks) + list_sum (map g ks))%nat.
Proof. induction ks as [|k ks IH]; simpl; [reflexivity|]. rewrite IH. lia. Qed.

Lemma grid_sum ds l :
  NoDup ds -> list_sum (map (per_district l) ds) = among ds l.
Proof.
  intros Hds. induction l as [|s l IH].
  - unfold among, per_district. simpl.
    induction ds; simpl; [reflexivity|]. apply IHds. inversion Hds; assumption.
  - rewrite (map_ext _ _ (per_district_cons s l)).
    rewrite list_sum_plus, IH, (one_cell s ds Hds).
    unfold among. simpl. destruct (existsb _ ds); reflexivity.
Qed.

Lemma total_byDistrict sel spots :
  total (byDistrict sel spots)
  = list_sum (map (per_district (filteredSpots sel spots))
                  (displayDistricts sel)).
Proof. unfold total, byDistrict. rewrite map_map. reflexivity. Qed.

Lemma among_all ds l :
  among ds l = length l <-> Forall (fun s => In (district s) ds) l.
Proof.
  unfold among. induction l as [|s l IH]; simpl.
  - split; [constructor|reflexivity].
  - pose proof (filter_sublist
                  (fun s => existsb (String.eqb (district s)) ds) l) as Hsub.
    apply sublist_length in Hsub.
    destruct (existsb _ ds) eqn:Ex; simpl.
    + apply existsb_exists in Ex as (d & Hin & Heq).
      apply String.eqb_eq in Heq. subst d.
      split.
      * intros H. constructor; [exact Hin|]. apply IH. lia.
      * intros H. inversion H; subst. f_equal. apply IH. assumption.
    + split.
      * intros H. lia.
      * intros H. inversion H as [|? ? Hin _]; subst. exfalso.
        assert (existsb (String.eqb (district s)) ds = true) as E.
        { apply existsb_exists. exists (district s).
          split; [exact Hin | apply String.eqb_refl]. }
        congruence.
Qed.

Lemma total_byType sel spots :
  total (byType sel spots) = totalCount sel spots.
Proof.
  unfold total, byType, totalCount, TOURISM_TYPES. simpl.
  induction (filteredSpots sel spots) as [|s l IH]; simpl; [reflexivity|].
  destruct (type s); simpl; lia.
Qed.

End DashboardFacts.

Section DashboardClaims.

Import Dashboard.

(** C2 (amended). For every non-empty record list, the aggregates under the
    filter ["Semua"] give one count per type, for the three fixed types in
    their fixed order, and these sum to the total count; they give one count
    per district, for the nineteen fixed districts in their fixed order, and
    these sum to the total count when every record's district is one of the
    nineteen. *)
Theorem counts_sum_to_total (spots : list TouristSpot) :
  spots <> [] ->
  (map fst (byType "Semua" spots) = TOURISM_TYPES /\
   length TOURISM_TYPES = 3%nat /\
   total (byType "Semua" spots) = totalCount "Semua" spots) /\
  (map fst (byDistrict "Semua" spots) = DISTRICTS /\
   length DISTRICTS = 19%nat /\
   (Forall (fun s => In (district s) DISTRICTS) spots ->
    total (byDistrict "Semua" spots) = totalCount "Semua" spots)).
Proof.
  intros _. split.
  - split; [reflexivity|]. split; [reflexivity | apply total_byType].
  - split; [unfold byDistrict; rewrite map_map; apply map_id|].
    split; [reflexivity|]. intros Hall.
    rewrite total_byDistrict. simpl displayDistricts.
    rewrite filteredSpots_Semua.
    rewrite (grid_sum _ _ DISTRICTS_NoDup).
    apply among_all. exact Hall.
Qed.

Lemma counts_sum_to_total_witness :
  Samples.two_sites <> [] /\
  Forall (fun s => In (district s) DISTRICTS) Samples.two_sites /\
  total (byType "Semua" Samples.two_sites)
  = totalCount "Semua" Samples.two_sites /\
  total (byDistrict "Semua" Samples.two_sites)
  = totalCount "Semua" Samples.two_sites.
Proof.
  assert (Samples.two_sites <> []) as Hne by discriminate.
  assert (Forall (fun s => In (district s) DISTRICTS) Samples.two_sites)
    as Hall by (repeat constructor; simpl; tauto).
  split; [exact Hne|]. split; [exact Hall|].
  destruct (counts_sum_to_total Samples.two_sites Hne)
    as ((_ & _ & Ht) & _ & _ & Hd).
  split; [exact Ht | exact (Hd Hall)].
Defined.

(** C2, as stated, fails: a list of one record with a district outside
    the nineteen has total count 1 while its district counts sum to 0. Its
    type counts do sum to 1. *)
Lemma counts_sum_counterexample :
  [Samples.stray] <> [] /\
  total (byDistrict "Semua" [Samples.stray]) = 0%nat /\
  totalCount "Semua" [Samples.stray] = 1%nat /\
  total (byDistrict "Semua" [Samples.stray])
  <> totalCount "Semua" [Samples.stray] /\
  total (byType "Semua" [Samples.stray]) = totalCount "Semua" [Samples.stray].
Proof. repeat split; try discriminate; reflexivity. Qed.

(** C3. When the filter names a district [D] (anything but ["Semua"]),
    every record of the filtered list, from which all aggregates are
    computed, has district [D], and the district grid has exactly one
    entry, the one for [D]. *)
Theorem district_filter (D : string) (spots : list TouristSpot) :
  D <> "Semua" ->
  Forall (fun s => district s = D) (filteredSpots D spots) /\
  byDistrict D spots = [(D, totalCount D spots)] /\
  length (byDistrict D spots) = 1%nat.
Proof.
  intros HD.
  assert (Forall (fun s => district s = D) (filteredSpots D spots)) as Hall.
  { rewrite (filteredSpots_district D spots HD).
    apply List.Forall_forall. intros s Hs.
    apply List.filter_In in Hs as [_ Hs]. apply String.eqb_eq. exact Hs. }
  split; [exact Hall|].
  assert (byDistrict D spots = [(D, totalCount D spots)]) as E.
  { unfold byDistrict, displayDistricts, totalCount.
    destruct (String.eqb_spec D "Semua") as [E|_]; [contradiction|].
    simpl. do 2 f_equal. f_equal. apply filter_all.
    intros s Hs. apply String.eqb_eq.
    rewrite List.Forall_forall in Hall. apply Hall. exact Hs. }
  split; [exact E | rewrite E; reflexivity].
Qed.

Lemma district_filter_witness :
  "Geyer" <> "Semua" /\
  Forall (fun s => district s = "Geyer")
         (filteredSpots "Geyer" Samples.three_sites) /\
  byDistrict "Geyer" Samples.three_sites
  = [("Geyer", totalCount "Geyer" Samples.three_sites)] /\
  length (byDistrict "Geyer" Samples.three_sites) = 1%nat.
Proof.
  assert ("Geyer" <> "Semua") as HD by discriminate.
  split; [exact HD|]. exact (district_filter "Geyer" Samples.three_sites HD).
Defined.

(** C8. Under the filter ["Semua"], a record whose district is not one of
    the nineteen is part of the filtered list, adds one to the total count
    and its capacity to the running total of capacities, and changes no
    entry of the district grid, none of which is for its district; the
    grid then sums to less than the total count. In general the grid sums
    to the total count exactly when every record has one of the nineteen
    districts. *)
Theorem stray_district_counted (r : TouristSpot)
    (before after : list TouristSpot) :
  ~ In (district r) DISTRICTS ->
  let spots := (before ++ r :: after)%list in
  In r (filteredSpots "Semua" spots) /\
  totalCount "Semua" spots = S (totalCount "Semua" (before ++ after)%list) /\
  totalCapacity "Semua" spots
  = fold_left (fun acc curr => JS.add acc (capacity curr)) after
              (JS.add (totalCapacity "Semua" before) (capacity r)) /\
  byDistrict "Semua" spots = byDistrict "Semua" (before ++ after)%list /\
  Forall (fun cell => fst cell <> district r) (byDistrict "Semua" spots) /\
  (total (byDistrict "Semua" spots) < totalCount "Semua" spots)%nat /\
  (forall l : list TouristSpot,
      total (byDistrict "Semua" l) = totalCount "Semua" l
      <-> Forall (fun s => In (district s) DISTRICTS) l).
Proof.
  intros Hr spots.
  assert (forall l : list TouristSpot,
             total (byDistrict "Semua" l) = among DISTRICTS l) as Htot.
  { intros l. rewrite total_byDistrict. simpl displayDistricts.
    rewrite filteredSpots_Semua. apply grid_sum, DISTRICTS_NoDup. }
  assert (forall l : list TouristSpot,
             total (byDistrict "Semua" l) = totalCount "Semua" l
             <-> Forall (fun s => In (district s) DISTRICTS) l) as Hiff.
  { intros l. rewrite Htot. apply among_all. }
  split; [|split; [|split; [|split; [|split; [|split]]]]].
  - rewrite filteredSpots_Semua. apply in_or_app. right. left. reflexivity.
  - unfold totalCount. rewrite !filteredSpots_Semua. subst spots.
    rewrite !length_app. simpl. lia.
  - unfold totalCapacity. rewrite !filteredSpots_Semua. subst spots.
    rewrite fold_left_app. reflexivity.
  - unfold byDistrict. simpl displayDistricts. rewrite !filteredSpots_Semua.
    apply map_ext_in. intros d Hd. f_equal. subst spots.
    rewrite !List.filter_app. simpl.
    destruct (String.eqb_spec (district r) d) as [E|_]; [|reflexivity].
    exfalso. apply Hr. rewrite E. exact Hd.
  - unfold byDistrict. simpl displayDistricts.
    apply List.Forall_forall. intros cell Hc.
    apply in_map_iff in Hc as (d & <- & Hd). simpl.
    intros E. apply Hr. rewrite <- E. exact Hd.
  - assert (total (byDistrict "Semua" spots) <> totalCount "Semua" spots) as N.
    { intros E. apply Hiff in E. rewrite List.Forall_forall in E.
      apply Hr, E. subst spots. apply in_or_app. right. left. reflexivity. }
    assert (total (byDistrict "Semua" spots) <= totalCount "Semua" spots)%nat.
    { rewrite Htot. unfold among, totalCount. rewrite filteredSpots_Semua.
      apply sublist_length, filter_sublist. }
    lia.
  - exact Hiff.
Qed.

Lemma stray_district_counted_witness :
  ~ In (district Samples.stray) DISTRICTS /\
  totalCount "Semua" Samples.three_sites
  = S (totalCount "Semua" Samples.two_sites) /\
  byDistrict "Semua" Samples.three_sites
  = byDistrict "Semua" Samples.two_sites /\
  (total (byDistrict "Semua" Samples.three_sites)
   < totalCount "Semua" Samples.three_sites)%nat.
Proof.
  assert (~ In (district Samples.stray) DISTRICTS) as Hr.
  { simpl. intros H.
    repeat (destruct H as [H|H]; [discriminate H|]). exact H. }
  split; [exact Hr|].
  destruct (stray_district_counted Samples.stray [Samples.bledug_kuwu]
              [Samples.kedung_ombo] Hr) as (_ & Hc & _ & Hg & _ & Hlt & _).
  split; [exact Hc | split; [exact Hg | exact Hlt]].
Defined.

(** C9. Whatever the filter, the filtered list that the map, the table and
    the aggregates are computed from is a subsequence of the stored list:
    the records it keeps are in the order of the stored list, which is
    newest first because [addSpot] puts a new record at the front. *)
Theorem filteredSpots_keeps_order (selectedDistrict : string)
    (spots : list TouristSpot) :
  sublist (filteredSpots selectedDistrict spots) spots /\
  (forall (spot : TouristSpot) (st : App.State),
      App.spots (App.addSpot spot st) = spot :: App.spots st).
Proof.
  split; [|reflexivity].
  unfold filteredSpots. destruct (String.eqb _ _).
  - reflexivity.
  - apply filter_sublist.
Qed.

End DashboardClaims.

(** ** The store: submitting and deleting *)

Section StoreClaims.

Import InputForm.

Lemma missing_dec (field : option string) :
  {missing field} + {exists c r, field = Some (String c r)}.
Proof.
  destruct field as [[|c r]|].
  - left. right. reflexivity.
  - right. exists c, r. reflexivity.
  - left. left. reflexivity.
Qed.

(** C7. A submission goes one of two ways. If the name or the village is
    empty, the store and the form are left as they were and the prompt
    asking to complete them is shown. Otherwise one new record, carrying
    the name and village of the form, is put at the front of the stored
    list, and nothing else of the list changes. *)
Theorem submit_blocked_or_prepended (now : N) (formData : FormData)
    (st : App.State) :
  let result := App.submit now formData st in
  ((missing (form_name formData) \/ missing (form_village formData)) /\
   result = (st, formData, incomplete))
  \/
  (~ missing (form_name formData) /\ ~ missing (form_village formData) /\
   exists newSpot : TouristSpot,
     App.spots (fst (fst result)) = newSpot :: App.spots st /\
     form_name formData = Some (name newSpot) /\
     form_village formData = Some (village newSpot) /\
     id newSpot = timestamp now /\
     snd result = saved).
Proof.
  unfold App.submit, handleSubmit. simpl.
  destruct (missing_dec (form_name formData)) as [Hn|(a & n & Hn)].
  - left. split; [left; exact Hn|].
    destruct Hn as [-> | ->]; reflexivity.
  - destruct (missing_dec (form_village formData)) as [Hv|(b & v & Hv)].
    + left. split; [right; exact Hv|]. rewrite Hn.
      destruct Hv as [-> | ->]; reflexivity.
    + right. rewrite Hn, Hv.
      split; [intros [H|H]; discriminate H|].
      split; [intros [H|H]; discriminate H|].
      eexists. simpl. repeat split; reflexivity.
Qed.

(** C10. A confirmed deletion leaves no record with the given id, keeps
    every record with another id, and keeps them in their order: the new
    list is a subsequence of the old one that is shorter by exactly the
    number of records with that id. The active tab is untouched, and when
    no record has the id the state does not change at all. *)
Theorem deleteSpot_frame (id' : string) (st : App.State) :
  let st' := App.deleteSpot true id' st in
  Forall (fun s => id s <> id') (App.spots st') /\
  (forall s, In s (App.spots st) -> id s <> id' -> In s (App.spots st')) /\
  sublist (App.spots st') (App.spots st) /\
  (length (App.spots st')
   + length (List.filter (fun s => String.eqb (id s) id') (App.spots st))
   = length (App.spots st))%nat /\
  App.activeTab st' = App.activeTab st /\
  (~ In id' (map id (App.spots st)) -> st' = st).
Proof.
  simpl. repeat split.
  - apply List.Forall_forall. intros s Hs.
    apply List.filter_In in Hs as [_ Hs].
    apply negb_true_iff, String.eqb_neq in Hs. exact Hs.
  - intros s Hs Hne. apply List.filter_In. split; [exact Hs|].
    apply negb_true_iff, String.eqb_neq. exact Hne.
  - apply filter_sublist.
  - pose proof (filter_split_length
                  (fun s => String.eqb (id s) id') (App.spots st)). lia.
  - intros Hout. destruct st as [l tab]. simpl in *. f_equal.
    apply filter_all. intros s Hs.
    apply negb_true_iff, String.eqb_neq. intros E. apply Hout.
    rewrite <- E. apply in_map. exact Hs.
Qed.

End StoreClaims.

(** ** Numbers read by [parseInt] *)

Section Integers.

Lemma round_half_even_unit (n : Z) : round_half_even n 1 = n.
Proof.
  unfold round_half_even. rewrite Z.mod_1_r, Z.div_1_r. reflexivity.
Qed.

Lemma round_half_even_nonneg (n d : Z) :
  (0 <= n)%Z -> (0 < d)%Z -> (0 <= round_half_even n d)%Z.
Proof.
  intros Hn Hd. unfold round_half_even.
  assert (0 <= n / d)%Z by (apply Z.div_pos; assumption).
  destruct (2 * (n mod d) ?= d)%Z; [destruct (Z.even _)| |]; lia.
Qed.

Lemma Qred_integer (k : Z) (d : positive) :
  Qred ((k * Zpos d)%Z # d) = inject_Z k.
Proof.
  transitivity (Qred (inject_Z k)).
  - apply Qred_complete. unfold Qeq, inject_Z. simpl. lia.
  - apply Qred_identity. unfold inject_Z. simpl. apply Z.gcd_1_r.
Qed.

(** Rounding a positive integer gives a non-negative integer, or
    [Infinity]. *)
Lemma round64_pos_integer (n : positive) :
  round64_pos n 1 = Infinity false \/
  exists k : Z, (0 <= k)%Z /\ round64_pos n 1 = Finite (inject_Z k).
Proof.
  unfold round64_pos.
  set (e := Z.max (binade n 1) (-1022)).
  destruct ((1023 <? e)%Z || ((e =? 1023)%Z && _)); [left; reflexivity|].
  right. destruct (0 <=? e - 52)%Z eqn:Hx.
  - apply Z.leb_le in Hx.
    eexists. split; [|reflexivity].
    apply Z.mul_nonneg_nonneg; [|apply Z.pow_nonneg; lia].
    apply round_half_even_nonneg; [lia|].
    apply Z.mul_pos_pos; [lia | apply Z.pow_pos_nonneg; lia].
  - apply Z.leb_gt in Hx. exists (Zpos n). split; [lia|].
    rewrite round_half_even_unit.
    assert (0 < 2 ^ (- (e - 52)))%Z as Hp by (apply Z.pow_pos_nonneg; lia).
    destruct (2 ^ (- (e - 52)))%Z as [|p|p] eqn:Ep; try lia.
    simpl Z.to_pos. f_equal. apply Qred_integer.
Qed.

Lemma negate_integer (k : Z) :
  negate (Finite (inject_Z k)) = Finite (inject_Z (- k)).
Proof.
  unfold negate. f_equal. apply Qred_identity. simpl. apply Z.gcd_1_r.
Qed.

Lemma of_Q_integer (v : Z) : whole (of_Q (v # 1)).
Proof.
  unfold of_Q. simpl. destruct v as [|n|n].
  - exists 0%Z. reflexivity.
  - destruct (round64_pos_integer n) as [-> | (k & _ & ->)]; simpl; eauto.
  - destruct (round64_pos_integer n) as [-> | (k & _ & ->)]; simpl; eauto.
    rewrite Qred_identity by (simpl; apply Z.gcd_1_r).
    exists (- k)%Z. reflexivity.
Qed.

Lemma of_Q_natural (v : Z) :
  (0 <= v)%Z ->
  of_Q (v # 1) = Infinity false \/
  exists k : Z, (0 <= k)%Z /\ of_Q (v # 1) = Finite (inject_Z k).
Proof.
  intros Hv. unfold of_Q. simpl. destruct v as [|n|n]; [| |lia].
  - right. exists 0%Z. split; [lia | reflexivity].
  - apply round64_pos_integer.
Qed.

Lemma digit_value_nonneg (radix : Z) (c : ascii) (d : Z) :
  digit_value radix c = Some d -> (0 <= d)%Z.
Proof.
  unfold digit_value.
  set (n := Z.of_nat (nat_of_ascii c)).
  destruct ((48 <=? n)%Z && (n <=? 57)%Z) eqn:H1;
    [|destruct ((97 <=? n)%Z && (n <=? 122)%Z) eqn:H2;
      [|destruct ((65 <=? n)%Z && (n <=? 90)%Z) eqn:H3]];
    try discriminate;
    match goal with
    | |- context [(?a <? radix)%Z] => destruct (a <? radix)%Z
    end; try discriminate;
    intros [= <-];
    match goal with
    | H : _ && _ = true |- _ =>
        apply andb_true_iff in H as [Hlo _]; apply Z.leb_le in Hlo; lia
    end.
Qed.

Lemma digits_nonneg (radix : Z) (s : string) :
  (0 <= radix)%Z ->
  forall (acc : Z) (count : nat),
    (0 <= acc)%Z -> (0 <= fst (fst (digits radix s acc count)))%Z.
Proof.
  intros Hr. induction s as [|c r IH]; intros acc count Hacc; simpl.
  - exact Hacc.
  - destruct (digit_value radix c) as [d|] eqn:Hd; simpl; [|exact Hacc].
    apply IH. apply digit_value_nonneg in Hd. nia.
Qed.

(** [parseInt] never returns a fraction. *)
Lemma parseInt_whole (value : string) :
  parseInt value = NaN \/ whole (parseInt value).
Proof.
  unfold parseInt.
  destruct (sign (skip_white value)) as [neg s1].
  match goal with
  | |- context [let '(radix, s2) := ?p in _] => destruct p as [radix s2]
  end.
  destruct (digits radix s2 0 0) as [[v count] rest].
  destruct count as [|count]; [left; reflexivity|right].
  pose proof (of_Q_integer v) as Hw.
  destruct neg; [|exact Hw].
  destruct (of_Q (v # 1)) as [| |q]; simpl in *; try exact Hw.
  destruct Hw as [k ->]. rewrite Qred_identity by (simpl; apply Z.gcd_1_r).
  exists (- k)%Z. reflexivity.
Qed.

(** Without a minus sign in front, [parseInt] reads nothing negative. *)
Lemma parseInt_unsigned (value : string) :
  fst (sign (skip_white value)) = false ->
  parseInt value = NaN \/ parseInt value = Infinity false \/
  non_negative_integer (parseInt value).
Proof.
  unfold parseInt.
  destruct (sign (skip_white value)) as [neg s1]. simpl. intros ->.
  match goal with
  | |- context [let '(radix, s2) := ?p in _] =>
      assert (0 <= fst p)%Z as Hr
        by (destruct s1 as [|[[] [] [] [] [] [] [] []] [|[[] [] [] [] [] [] [] []] ?]];
            simpl; lia);
      destruct p as [radix s2]
  end.
  simpl in Hr.
  pose proof (digits_nonneg radix s2 Hr 0%Z 0%nat (Z.le_refl 0)) as Hv.
  destruct (digits radix s2 0 0) as [[v count] rest]. simpl in Hv.
  destruct count as [|count]; [left; reflexivity|right].
  destruct (of_Q_natural v Hv) as [-> | (k & Hk & ->)]; [left; reflexivity|].
  right. exists k. split; [exact Hk | reflexivity].
Qed.

End Integers.

(** ** The capacity of a created record *)

Section CapacityClaims.

Import InputForm.

Lemma or_else_zero_cases (x : number) :
  or_else x zero = zero \/ (truthy x = true /\ or_else x zero = x).
Proof.
  unfold or_else. destruct (truthy x); [right; split; reflexivity | left; reflexivity].
Qed.

Lemma zero_non_negative_integer : non_negative_integer zero.
Proof. exists 0%Z. split; [lia | reflexivity]. Qed.

Lemma validity_cases (formData : FormData) :
  checkValidity formData = true <->
  (exists a n, form_name formData = Some (String a n)) /\
  (exists b v, form_village formData = Some (String b v)) /\
  range_underflow (form_capacity formData) = false /\
  step_mismatch (form_capacity formData) = false.
Proof.
  unfold checkValidity. rewrite !andb_true_iff, !negb_true_iff.
  assert (forall field, value_missing field = false
                        <-> exists c r, field = Some (String c r)) as Hm.
  { intros [[|c r]|]; simpl; split; try discriminate; eauto;
      intros (c' & r' & H); discriminate H. }
  rewrite !Hm. tauto.
Qed.

(** The capacity a submission stores after [typed] was typed. *)
Lemma stored_capacity (now : N) (typed : string) (before : FormData)
    (st : App.State) (newSpot : TouristSpot) :
  App.requestSubmit now (change_capacity typed before) st
  = Some (App.addSpot newSpot st, blank, saved) ->
  checkValidity (change_capacity typed before) = true /\
  capacity newSpot = or_else (parseInt (input_value typed)) zero.
Proof.
  unfold App.requestSubmit.
  destruct (checkValidity (change_capacity typed before)) eqn:Hv;
    [|discriminate].
  intros [= Hs]. split; [reflexivity|].
  apply validity_cases in Hv as ((a & n & Hn) & (b & v & Hb) & _).
  unfold App.submit, handleSubmit in Hs. rewrite Hn, Hb in Hs.
  apply (f_equal (fun result => App.spots (fst (fst result)))) in Hs.
  simpl in Hs. injection Hs as <-. reflexivity.
Qed.

(** C6. The claim fails on the code for a capacity entered as 310 nines
    followed by [e-5]. That text is a valid value of the number input, about
    [1e305], so the input hands it on; [parseInt] reads the 310 digits and
    gives [Infinity]; the form is valid, and the record is created with
    capacity [Infinity], which is not a non-negative integer. *)
Theorem scaled_numeral_stored_as_Infinity :
  input_value Samples.scaled_numeral = Samples.scaled_numeral /\
  parseInt (input_value Samples.scaled_numeral) = Infinity false /\
  checkValidity (change_capacity Samples.scaled_numeral Samples.filled)
  = true /\
  exists newSpot : TouristSpot,
    App.requestSubmit 1700000000000
      (change_capacity Samples.scaled_numeral Samples.filled) App.initial
    = Some (App.addSpot newSpot App.initial, blank, saved) /\
    capacity newSpot = Infinity false /\
    ~ non_negative_integer (capacity newSpot).
Proof.
  split; [vm_compute; reflexivity|].
  split; [vm_compute; reflexivity|].
  split; [vm_compute; reflexivity|].
  exists {| id := "1700000000000"; name := "Bledug Kuwu"; village := "Kuwu";
            district := "Kradenan"; type := Wisata_Alam;
            capacity := Infinity false; risks := [];
            latitude := Some ""; longitude := Some "" |}.
  split; [vm_compute; reflexivity|].
  split; [reflexivity|].
  intros (k & _ & H). exact H.
Qed.

(** X21. A record that a click on the submit button creates after the
    capacity was typed has a capacity that is a non-negative integer or an
    infinity: never [NaN], a fraction or a negative integer. Typed text
    that the input does not hand on, or that [parseInt] cannot read, does
    not stop the submission of a form with name and village filled in: the
    record is created with capacity 0. *)
Theorem capacity_through_the_form (now : N) (typed : string)
    (before : FormData) (st : App.State) :
  (forall newSpot : TouristSpot,
      App.requestSubmit now (change_capacity typed before) st
      = Some (App.addSpot newSpot st, blank, saved) ->
      non_negative_integer (capacity newSpot) \/
      exists s, capacity newSpot = Infinity s) /\
  (input_value typed = "" \/ parseInt (input_value typed) = NaN ->
   ~ missing (form_name before) -> ~ missing (form_village before) ->
   exists newSpot : TouristSpot,
     App.requestSubmit now (change_capacity typed before) st
     = Some (App.addSpot newSpot st, blank, saved) /\
     capacity newSpot = zero).
Proof.
  split.
  - intros newSpot Hs.
    destruct (stored_capacity _ _ _ _ _ Hs) as [Hv ->].
    apply validity_cases in Hv as (_ & _ & Hr & _). simpl in Hr.
    destruct (or_else_zero_cases (parseInt (input_value typed)))
      as [-> | [Ht ->]]; [left; apply zero_non_negative_integer|].
    destruct (parseInt_whole (input_value typed)) as [E|Hw];
      [rewrite E in Ht; discriminate Ht|].
    destruct (parseInt (input_value typed)) as [|sgn|q]; [contradiction| |].
    + right. exists sgn. reflexivity.
    + left. destruct Hw as [k ->]. exists k. split; [|reflexivity].
      apply negb_false_iff, Qle_bool_iff in Hr.
      unfold Qle, inject_Z in Hr. simpl in Hr. lia.
  - intros Hnan Hn Hv.
    assert (parseInt (input_value typed) = NaN) as E.
    { destruct Hnan as [-> | E]; [reflexivity | exact E]. }
    destruct (missing_dec (form_name before)) as [?|(a & n & En)];
      [contradiction|].
    destruct (missing_dec (form_village before)) as [?|(b & v & Ev)];
      [contradiction|].
    unfold App.requestSubmit, checkValidity, App.submit, handleSubmit,
      change_capacity. simpl. rewrite E, En, Ev. simpl.
    eexists. split; reflexivity.
Qed.

Lemma capacity_through_the_form_witness :
  input_value "abc" = "" /\
  ~ missing (form_name Samples.filled) /\
  ~ missing (form_village Samples.filled) /\
  exists newSpot : TouristSpot,
    App.requestSubmit 1700000000000 (change_capacity "abc" Samples.filled)
                      App.initial
    = Some (App.addSpot newSpot App.initial, blank, saved) /\
    capacity newSpot = zero.
Proof.
  assert (~ missing (form_name Samples.filled)) as Hn
      by (intros [H|H]; discriminate H).
  assert (~ missing (form_village Samples.filled)) as Hv
      by (intros [H|H]; discriminate H).
  split; [reflexivity|]. split; [exact Hn|]. split; [exact Hv|].
  apply (proj2 (capacity_through_the_form 1700000000000 "abc" Samples.filled
                  App.initial)); [left; reflexivity | exact Hn | exact Hv].
Defined.

End CapacityClaims.

(** ** Where a record's marker goes *)

Section Resolution.

Import MapComponent.

Lemma table_keys : map fst DISTRICT_COORDINATES = DISTRICTS.
Proof. reflexivity. Qed.

Lemma assoc_In (k : string) (table : list (string * LatLng)) (c : LatLng) :
  assoc k table = Some c -> In (k, c) table.
Proof.
  induction table as [|[k' v] rest IH]; simpl; [discriminate|].
  destruct (String.eqb_spec k k') as [->|_].
  - intros [= ->]. left. reflexivity.
  - intros H. right. apply IH. exact H.
Qed.

(** No centroid has a zero in it. *)
Lemma centroids_truthy :
  Forall (fun entry => truthy (fst (snd entry)) && truthy (snd (snd entry))
                       = true)
         DISTRICT_COORDINATES.
Proof. repeat constructor. Qed.

Lemma nonzero_finite_truthy (n : number) :
  nonzero_finite n = true -> truthy n = true.
Proof. destruct n; simpl; [discriminate.. | intros H; exact H]. Qed.

(** A missing or empty coordinate reads as ["0"], which parses to zero. *)
Lemma absent_coordinate (c : option string) :
  c = None \/ c = Some "" \/ c = Some "0" ->
  parseFloat (str_or c "0") = zero.
Proof. intros [->|[->| ->]]; reflexivity. Qed.

Lemma truthy_coordinate (c : option string) :
  truthy (parseFloat (str_or c "0")) = true ->
  exists text : string, c = Some text /\ str_or c "0" = text.
Proof.
  destruct c as [[|a r]|]; simpl str_or.
  - intros H. discriminate H.
  - intros _. eexists. split; reflexivity.
  - intros H. discriminate H.
Qed.

Lemma not_inherited (key : string) :
  ~ In key Object_prototype ->
  existsb (String.eqb key) Object_prototype = false.
Proof.
  intros H. destruct (existsb _ _) eqn:E; [|reflexivity].
  exfalso. apply H. apply existsb_exists in E as (k & Hin & Hk).
  apply String.eqb_eq in Hk. rewrite Hk. exact Hin.
Qed.

(** X22. The order in which the code resolves the position of a record's
    marker. If latitude and longitude both parse to numbers that are
    neither zero nor [NaN] (every non-zero finite number is one, and so is
    an infinity), the marker is placed at exactly the numbers parsed from
    the two strings. Otherwise, if the district is a key of the centroid
    table, the marker is placed at that centroid. Otherwise, if the
    district is not the name of a property that the table inherits from
    [Object.prototype], there is no marker and no error. A coordinate that
    is missing, empty or ["0"] parses to zero and so counts as absent. *)
Theorem marker_resolution (spot : TouristSpot) :
  let lat := parseFloat (str_or (latitude spot) "0") in
  let lng := parseFloat (str_or (longitude spot) "0") in
  (truthy lat && truthy lng = true ->
   resolve spot = placed (lat, lng) /\
   exists a b : string,
     latitude spot = Some a /\ longitude spot = Some b /\
     resolve spot = placed (parseFloat a, parseFloat b)) /\
  (nonzero_finite lat && nonzero_finite lng = true ->
   truthy lat && truthy lng = true) /\
  (truthy lat && truthy lng = false ->
   forall c : LatLng,
     assoc (district spot) DISTRICT_COORDINATES = Some c ->
     resolve spot = placed c) /\
  (truthy lat && truthy lng = false ->
   assoc (district spot) DISTRICT_COORDINATES = None ->
   ~ In (district spot) Object_prototype ->
   resolve spot = skipped) /\
  (forall c : option string,
      c = None \/ c = Some "" \/ c = Some "0" ->
      truthy (parseFloat (str_or c "0")) = false).
Proof.
  intros lat lng.
  assert (truthy lat && truthy lng = true -> resolve spot = placed (lat, lng))
    as Hown.
  { intros H. unfold resolve, coordinates. fold lat lng.
    apply andb_true_iff in H as [Hlat Hlng].
    rewrite Hlat, Hlng. simpl. rewrite Hlat, Hlng. reflexivity. }
  split; [|split; [|split; [|split]]].
  - intros H. split; [apply Hown, H|].
    pose proof H as H'. apply andb_true_iff in H' as [Hlat Hlng].
    destruct (truthy_coordinate _ Hlat) as (a & Ha & Ea).
    destruct (truthy_coordinate _ Hlng) as (b & Hb & Eb).
    exists a, b. split; [exact Ha|]. split; [exact Hb|].
    rewrite (Hown H). subst lat lng. rewrite Ea, Eb. reflexivity.
  - intros H. apply andb_true_iff in H as [Hlat Hlng].
    rewrite (nonzero_finite_truthy _ Hlat), (nonzero_finite_truthy _ Hlng).
    reflexivity.
  - intros H c Hc. unfold resolve, coordinates. fold lat lng.
    rewrite <- negb_andb, H. simpl.
    unfold DISTRICT_COORDINATES_get. rewrite Hc.
    pose proof centroids_truthy as Hall. rewrite List.Forall_forall in Hall.
    specialize (Hall _ (assoc_In _ _ _ Hc)). simpl in Hall.
    destruct c as [clat clng]. simpl in Hall. rewrite Hall. reflexivity.
  - intros H Hnone Hproto. unfold resolve, coordinates. fold lat lng.
    rewrite <- negb_andb, H. simpl.
    unfold DISTRICT_COORDINATES_get.
    rewrite Hnone, (not_inherited _ Hproto), H. reflexivity.
  - intros c Hc. rewrite (absent_coordinate c Hc). reflexivity.
Qed.

Lemma marker_resolution_witness :
  resolve Samples.kedung_ombo
  = placed (parseFloat "-7.09", parseFloat "110.92") /\
  resolve Samples.bledug_kuwu = placed (deg (-71581), deg 1111378) /\
  resolve Samples.stray = skipped.
Proof.
  split; [|split].
  - apply (proj1 (marker_resolution Samples.kedung_ombo)). reflexivity.
  - apply (proj1 (proj2 (proj2 (marker_resolution Samples.bledug_kuwu))));
      reflexivity.
  - apply (proj1 (proj2 (proj2 (proj2
             (marker_resolution Samples.stray))))); [reflexivity..|].
    simpl. intros H.
    repeat (destruct H as [H|H]; [discriminate H|]). exact H.
Defined.

(** C1. The claim fails on the code for a record of district Purwodadi
    with latitude [Infinity] and longitude [110.9157]. The latitude is not
    a finite number, so the resolution order of the claim, [specified],
    gives the centroid of Purwodadi; the code tests the parsed numbers for
    truthiness only and places the marker at latitude [Infinity]. On a
    record without coordinates whose district is [constructor], a name the
    table inherits from [Object.prototype], the claim gives no marker and
    no error; the code raises a TypeError. *)
Theorem infinite_latitude_placed :
  latitude Samples.polar = Some "Infinity" /\
  nonzero_finite (parseFloat (str_or (latitude Samples.polar) "0")) = false /\
  assoc (district Samples.polar) DISTRICT_COORDINATES = Some default_center /\
  specified Samples.polar = placed default_center /\
  resolve Samples.polar = placed (Infinity false, parseFloat "110.9157") /\
  specified Samples.inherited_name = skipped /\
  resolve Samples.inherited_name = raised.
Proof. repeat (split; [reflexivity|]). reflexivity. Qed.

End Resolution.

(** ** The marker synchronisation *)

Section Synchronisation.

Import MapComponent.

Implicit Types (r : Refs) (m : LeafletMap) (spots : list TouristSpot).

(** *** Clearing *)

Lemma strip_frame (markers : list Marker) :
  forall m,
    tiles (strip markers m) = tiles m /\
    view (strip markers m) = view m /\
    forall l, In l (layers (strip markers m)) ->
              In l (layers m) /\
              ~ In (marker_id l) (map marker_id markers).
Proof.
  unfold strip.
  induction markers as [|marker rest IH]; intros m; simpl.
  - repeat split; tauto.
  - destruct (IH (remove marker m)) as (Ht & Hv & Hl).
    split; [exact Ht|]. split; [exact Hv|].
    intros l Hin. destruct (Hl l Hin) as [Hin' Hrest].
    simpl in Hin'. apply List.filter_In in Hin' as [Hin' Hne].
    apply negb_true_iff, Nat.eqb_neq in Hne.
    split; [exact Hin'|]. intros [E|E]; [congruence | contradiction].
Qed.

Lemma clear_refs r :
  mapInstanceRef (clear r) = option_map (strip (markersRef r)) (mapInstanceRef r) /\
  markersRef (clear r) = [] /\
  allocated (clear r) = allocated r.
Proof.
  unfold clear, strip. simpl.
  generalize (markersRef r) as markers.
  intros markers. revert r.
  induction markers as [|marker rest IH]; intros r; simpl.
  - destruct (mapInstanceRef r); repeat split; reflexivity.
  - destruct (IH (on_map (remove marker) r)) as (Hm & _ & Ha).
    rewrite Hm, Ha. simpl.
    destruct (mapInstanceRef r); repeat split; reflexivity.
Qed.

(** With every marker of the map tracked, clearing leaves none on it. *)
Lemma clear_tracked r m :
  tracked r -> mapInstanceRef r = Some m ->
  clear r = {| mapInstanceRef :=
                 Some {| tiles := tiles m; layers := []; view := view m |};
               markersRef := [];
               allocated := allocated r |}.
Proof.
  intros [Hsurf _] Hm.
  destruct (clear_refs r) as (Hmap & Hmk & Hal).
  destruct (clear r) as [mi mk al]. simpl in *. subst mk al.
  rewrite Hm in Hmap. simpl in Hmap. subst mi. do 2 f_equal.
  destruct (strip_frame (markersRef r) m) as (Ht & Hv & Hl).
  destruct (strip (markersRef r) m) as [t ls v]. simpl in *. subst t v.
  f_equal. destruct ls as [|l ls]; [reflexivity|]. exfalso.
  destruct (Hl l (or_introl eq_refl)) as [Hin Hout].
  apply Hout, in_map, Hsurf. unfold surface. rewrite Hm. exact Hin.
Qed.

(** *** The loop *)

Lemma forEach_mounted spots :
  forall (t : list string) (ls : list Marker) (v : View)
         (held : list Marker) (n : nat),
    forEach spots
      {| mapInstanceRef := Some {| tiles := t; layers := ls; view := v |};
         markersRef := held; allocated := n |}
    = ({| mapInstanceRef :=
            Some {| tiles := t; layers := ls ++ markers_from n spots;
                    view := v |};
          markersRef := held ++ markers_from n spots;
          allocated := n + length (markers_from n spots) |},
       if raises spots then TypeError else completed).
Proof.
  induction spots as [|spot rest IH]; intros t ls v held n; simpl.
  - rewrite !app_nil_r, Nat.add_0_r. reflexivity.
  - unfold each. destruct (resolve spot) as [p| |]; simpl.
    + unfold addTo. simpl. rewrite IH. rewrite <- !app_assoc. simpl.
      rewrite Nat.add_succ_r. reflexivity.
    + apply IH.
    + rewrite !app_nil_r, Nat.add_0_r. reflexivity.
Qed.

Lemma markers_from_content (n : nat) spots :
  map content (markers_from n spots) = derived (processed spots).
Proof.
  revert n. induction spots as [|spot rest IH]; intros n; simpl.
  - reflexivity.
  - destruct (resolve spot) eqn:E; simpl; rewrite ?E; simpl;
      [rewrite IH| |]; auto.
Qed.

Lemma processed_all spots : raises spots = false -> processed spots = spots.
Proof.
  unfold raises. induction spots as [|spot rest IH]; simpl; [reflexivity|].
  destruct (resolve spot); simpl; intros H;
    [rewrite (IH H) | rewrite (IH H) | discriminate H]; reflexivity.
Qed.

Lemma markers_from_ids (n : nat) spots :
  map marker_id (markers_from n spots)
  = seq n (length (markers_from n spots)).
Proof.
  revert n. induction spots as [|spot rest IH]; intros n; simpl.
  - reflexivity.
  - destruct (resolve spot); simpl; [rewrite IH| |]; auto.
Qed.

Lemma markers_from_length (n : nat) spots :
  length (markers_from n spots) = length (derived (processed spots)).
Proof. rewrite <- (markers_from_content n), length_map. reflexivity. Qed.

Lemma getBounds_positions (markers : list Marker) :
  getBounds markers = bounds (map fst (map content markers)).
Proof.
  unfold getBounds, bounds. generalize (@None (LatLng * LatLng)).
  induction markers as [|marker rest IH]; intros b; simpl.
  - reflexivity.
  - apply IH.
Qed.

(** *** The effect as a whole *)

Variable leaflet : LeafletMap -> LatLngBounds -> call.

(** A run on a mounted map: the markers are those of the loop, and the
    view is set only when the loop got through and [fitBounds], if called,
    returned. *)
Lemma sync_mounted spots r m :
  tracked r -> mapInstanceRef r = Some m ->
  sync leaflet true spots r
  = (let markers := markers_from (allocated r) spots in
     let ending :=
       leaflet {| tiles := tiles m; layers := markers; view := view m |}
               (getBounds markers) in
     ({| mapInstanceRef :=
           Some {| tiles := tiles m;
                   layers := markers;
                   view := if raises spots then view m
                           else if (0 <? length markers)%nat
                                then match ending with
                                     | returns =>
                                         fitBounds (getBounds markers)
                                                   (50, 50)%Z
                                     | _ => view m
                                     end
                                else setView default_center 10 |};
         markersRef := markers;
         allocated := allocated r + length markers |},
      if raises spots then TypeError
      else if (0 <? length markers)%nat
           then match ending with
                | returns => completed
                | throws => LeafletError
                | hangs => unresponsive
                end
           else completed)).
Proof.
  intros Htr Hm. unfold sync. rewrite Hm, (clear_tracked r m Htr Hm).
  rewrite forEach_mounted. cbn zeta.
  destruct (raises spots); [reflexivity|]. simpl.
  destruct (0 <? length _)%nat; [|reflexivity].
  unfold fit. simpl. destruct (leaflet _ _); reflexivity.
Qed.

(** What a run on a mounted map leaves in the refs and on the map. *)
Lemma sync_markers spots r m :
  tracked r -> mapInstanceRef r = Some m ->
  let r' := fst (sync leaflet true spots r) in
  surface r' = markers_from (allocated r) spots /\
  markersRef r' = markers_from (allocated r) spots /\
  allocated r' = (allocated r + length (markers_from (allocated r) spots))%nat /\
  option_map tiles (mapInstanceRef r') = Some (tiles m).
Proof.
  intros Htr Hm. cbn zeta. rewrite (sync_mounted spots r m Htr Hm).
  unfold surface. simpl. repeat split; reflexivity.
Qed.

(** The run ends in a TypeError exactly when a record of the list raises. *)
Lemma sync_TypeError spots r m :
  tracked r -> mapInstanceRef r = Some m ->
  snd (sync leaflet true spots r) = TypeError <-> raises spots = true.
Proof.
  intros Htr Hm. rewrite (sync_mounted spots r m Htr Hm). cbn zeta.
  unfold snd.
  destruct (raises spots); [tauto|].
  destruct (0 <? length _)%nat; [destruct (leaflet _ _)|];
    split; discriminate.
Qed.

Lemma sync_idle (L : bool) spots r :
  mapInstanceRef r = None \/ L = false ->
  sync leaflet L spots r = (r, completed).
Proof.
  unfold sync. intros [-> | ->]; [reflexivity|].
  destruct (mapInstanceRef r); reflexivity.
Qed.

(** *** The invariant *)

Lemma tracked_sync (L : bool) spots r :
  tracked r -> tracked (fst (sync leaflet L spots r)).
Proof.
  intros Htr.
  destruct (mapInstanceRef r) as [m|] eqn:Hm;
    [destruct L|]; try (rewrite sync_idle by auto; exact Htr).
  destruct (sync_markers spots r m Htr Hm) as (Hs & Hmk & Hal & _).
  split.
  - rewrite Hs, Hmk. tauto.
  - rewrite Hmk, Hal. apply List.Forall_forall. intros marker Hin.
    apply (in_map marker_id) in Hin. rewrite markers_from_ids in Hin.
    apply in_seq in Hin. lia.
Qed.

Lemma reachable_tracked r : reachable leaflet r -> tracked r.
Proof.
  induction 1 as [|container L r _ IH|r _ IH|L spots r _ IH|v r _ IH].
  - split; [intros ? []|constructor].
  - unfold mount. destruct (mapInstanceRef r) eqn:Hm; [exact IH|].
    destruct (container && L); [|exact IH].
    destruct IH as [_ Hid]. split; [intros ? []|exact Hid].
  - destruct IH as [_ Hid]. split; [intros ? []|exact Hid].
  - apply tracked_sync, IH.
  - destruct IH as [Hs Hid]. split; [|exact Hid].
    intros marker Hin. apply Hs. unfold surface in *. simpl in Hin.
    destruct (mapInstanceRef r); exact Hin.
Qed.

End Synchronisation.

Section SynchronisationClaims.

Import MapComponent.

Implicit Types leaflet : LeafletMap -> LatLngBounds -> call.

Lemma shown_reachable : reachable Samples.well_behaved Samples.shown.
Proof. apply reach_sync, reach_mount, reach_initial. Qed.

(** C4. The claim fails on the code for the list of a record without
    coordinates whose district is [constructor], followed by Bledug Kuwu,
    given to a map that shows two markers. The earlier markers are taken
    off, the first record raises a TypeError inside the loop, and the run
    ends there: no marker is on the map, while the markers derived from the
    current list are the one of Bledug Kuwu. *)
Theorem inherited_name_blocks_markers leaflet :
  let spots := [Samples.inherited_name; Samples.bledug_kuwu] in
  let after := sync leaflet true spots Samples.shown in
  length (surface Samples.shown) = 2%nat /\
  snd after = TypeError /\
  surface (fst after) = [] /\
  derived spots
  = [((deg (-71581), deg 1111378), ("Bledug Kuwu", "Kradenan", Wisata_Alam))].
Proof. repeat (split; [reflexivity|]). reflexivity. Qed.

(** C5. The claim fails on the code for the list of Kedung Ombo followed
    by a record without coordinates whose district is [constructor], on a
    map just mounted. The run places the marker of Kedung Ombo and ends in
    the TypeError of the second record before the viewport is touched:
    after one run and after two, one marker is on the map and the viewport
    is still the default centre at zoom 10 of the mount, not the fit to the
    bounds of the marker. *)
Theorem partial_run_keeps_view leaflet :
  let spots := [Samples.kedung_ombo; Samples.inherited_name] in
  let once := sync leaflet true spots (mount true true initial) in
  let twice := sync leaflet true spots (fst once) in
  snd once = TypeError /\
  length (surface (fst once)) = 1%nat /\
  viewport (fst once) = Some (setView default_center 10) /\
  snd twice = TypeError /\
  length (surface (fst twice)) = 1%nat /\
  viewport (fst twice) = Some (setView default_center 10) /\
  viewport (fst twice)
  <> Some (fitBounds (getBounds (surface (fst twice))) (50, 50)%Z).
Proof. repeat (split; [reflexivity|]). discriminate. Qed.

(** X23. Whenever the synchronisation runs on a mounted map, in any state
    the component can be in and with any record list, the markers placed
    before are all taken off first, and afterwards the markers on the map
    are exactly those derived from the records the run went through, in
    their order, which is the whole list when no record raises: they are
    the ones [markersRef] holds, none of the earlier marker objects is
    among them, and no marker object occurs twice. This holds however the
    call of [fitBounds] ends. *)
Theorem sync_replaces_markers leaflet (spots : list TouristSpot) (r : Refs)
    (m : LeafletMap) :
  reachable leaflet r ->
  mapInstanceRef r = Some m ->
  let r' := fst (sync leaflet true spots r) in
  surface (clear r) = [] /\
  map content (surface r') = derived (processed spots) /\
  (raises spots = false -> map content (surface r') = derived spots) /\
  surface r' = markersRef r' /\
  (forall old, In old (markersRef r) \/ In old (surface r) ->
               ~ In old (surface r')) /\
  NoDup (map marker_id (surface r')).
Proof.
  intros Hreach Hm. pose proof (reachable_tracked _ r Hreach) as Htr.
  cbn zeta.
  destruct (sync_markers leaflet spots r m Htr Hm) as (Hs & Hmk & _).
  rewrite Hs, Hmk, (clear_tracked r m Htr Hm). unfold surface at 1. simpl.
  split; [reflexivity|]. split; [apply markers_from_content|].
  split; [intros H; rewrite markers_from_content, (processed_all _ H);
          reflexivity|].
  split; [reflexivity|]. split.
  - intros old Hold Hnew.
    assert (marker_id old < allocated r)%nat as Hlt.
    { destruct Htr as [Hsurf Hid]. rewrite List.Forall_forall in Hid.
      apply Hid. destruct Hold as [H|H]; [exact H|].
      apply Hsurf. exact H. }
    apply (in_map marker_id) in Hnew. rewrite markers_from_ids in Hnew.
    apply in_seq in Hnew. lia.
  - rewrite markers_from_ids. apply NoDup_seq.
Qed.

Lemma sync_replaces_markers_witness :
  reachable Samples.well_behaved Samples.shown /\
  (exists m, mapInstanceRef Samples.shown = Some m) /\
  map content
      (surface (fst (sync Samples.well_behaved true
                          [Samples.stray; Samples.polar] Samples.shown)))
  = derived [Samples.stray; Samples.polar].
Proof.
  split; [exact shown_reachable|]. split; [eexists; reflexivity|].
  eapply (sync_replaces_markers Samples.well_behaved
            [Samples.stray; Samples.polar] Samples.shown).
  - exact shown_reachable.
  - reflexivity.
  - reflexivity.
Defined.

(** X24. Running the synchronisation a second time with the same record
    list, from any state the component can be in, leaves the number of
    markers on the map as the first run left it, and the markers show the
    same positions and popups. When the way a call of [fitBounds] ends
    depends on the bounds only, the viewport too is as the first run left
    it. After a run on a mounted map that completes, the viewport is the
    fit to the bounds of the marker positions when there is a marker, and
    the default centre at zoom 10 when there is none. *)
Theorem sync_twice leaflet (L : bool) (spots : list TouristSpot) (r : Refs) :
  reachable leaflet r ->
  let once := fst (sync leaflet L spots r) in
  let twice := fst (sync leaflet L spots once) in
  length (surface twice) = length (surface once) /\
  map content (surface twice) = map content (surface once) /\
  ((forall m1 m2 b, leaflet m1 b = leaflet m2 b) ->
   viewport twice = viewport once) /\
  (forall m, L = true -> mapInstanceRef r = Some m ->
             snd (sync leaflet L spots r) = completed ->
             viewport once
             = Some (if (0 <? length (derived spots))%nat
                     then fitBounds (bounds (map fst (derived spots)))
                                    (50, 50)%Z
                     else setView default_center 10)).
Proof.
  intros Hreach. pose proof (reachable_tracked _ r Hreach) as Htr.
  destruct (mapInstanceRef r) as [m|] eqn:Hm; [destruct L|].
  - pose proof (tracked_sync leaflet true spots r Htr) as Htr1.
    cbn zeta. rewrite (sync_mounted leaflet spots r m Htr Hm) in *.
    cbn zeta in *. cbn [fst snd] in *.
    erewrite sync_mounted; [|exact Htr1|reflexivity].
    unfold surface, viewport. simpl.
    rewrite !markers_from_content, !markers_from_length.
    rewrite !getBounds_positions, !markers_from_content.
    clear Htr1. split; [reflexivity|]. split; [reflexivity|]. split.
    + intros Hsame. destruct (raises spots); [reflexivity|].
      destruct (0 <? length _)%nat; [|reflexivity].
      rewrite (Hsame _ {| tiles := tiles m;
                          layers := markers_from (allocated r) spots;
                          view := view m |}).
      destruct (leaflet _ _); reflexivity.
    + intros m' _ _. destruct (raises spots) eqn:Hr; [discriminate|].
      rewrite (processed_all _ Hr).
      destruct (0 <? length _)%nat; [|reflexivity].
      destruct (leaflet _ _); [reflexivity | discriminate..].
  - cbn zeta. rewrite !(sync_idle leaflet false spots r) by auto. simpl.
    rewrite !(sync_idle leaflet false spots r) by auto. simpl.
    repeat split; try reflexivity. intros ? H; discriminate H.
  - cbn zeta. rewrite !(sync_idle leaflet L spots r) by auto. simpl.
    rewrite !(sync_idle leaflet L spots r) by auto. simpl.
    repeat split; try reflexivity. intros ? _ H; discriminate H.
Qed.

Lemma sync_twice_witness :
  reachable Samples.well_behaved Samples.shown /\
  (forall m1 m2 b, Samples.well_behaved m1 b = Samples.well_behaved m2 b) /\
  length (surface (fst (sync Samples.well_behaved true Samples.three_sites
                          (fst (sync Samples.well_behaved true
                                     Samples.three_sites Samples.shown)))))
  = length (surface (fst (sync Samples.well_behaved true Samples.three_sites
                               Samples.shown))) /\
  viewport (fst (sync Samples.well_behaved true Samples.three_sites
                   (fst (sync Samples.well_behaved true Samples.three_sites
                              Samples.shown))))
  = viewport (fst (sync Samples.well_behaved true Samples.three_sites
                        Samples.shown)).
Proof.
  split; [exact shown_reachable|]. split; [reflexivity|].
  destruct (sync_twice Samples.well_behaved true Samples.three_sites
              Samples.shown shown_reachable) as (Hcount & _ & Hview & _).
  split; [exact Hcount | apply Hview; reflexivity].
Defined.

End SynchronisationClaims.

(** * Further properties of the form, the store, the dashboard and the map *)

(** ** Ticking risks *)

Section RiskToggling.

Import InputForm.

Lemma DisasterRisk_eqb_eq (a b : DisasterRisk) :
  DisasterRisk_eqb a b = true <-> a = b.
Proof. destruct a, b; simpl; split; intros H; congruence. Qed.

Lemma includes_In (risk : DisasterRisk) (l : list DisasterRisk) :
  existsb (DisasterRisk_eqb risk) l = true <-> In risk l.
Proof.
  rewrite existsb_exists. split.
  - intros (r & Hin & E). apply DisasterRisk_eqb_eq in E. subst r. exact Hin.
  - intros Hin. exists risk. split; [exact Hin|]. apply DisasterRisk_eqb_eq.
    reflexivity.
Qed.

Lemma without_In (risk r : DisasterRisk) (l : list DisasterRisk) :
  In r (List.filter (fun r => negb (DisasterRisk_eqb r risk)) l)
  <-> In r l /\ r <> risk.
Proof.
  rewrite List.filter_In, negb_true_iff.
  split; intros [Hin H]; (split; [exact Hin|]).
  - intros E. apply DisasterRisk_eqb_eq in E. congruence.
  - destruct (DisasterRisk_eqb r risk) eqn:E; [|reflexivity].
    apply DisasterRisk_eqb_eq in E. contradiction.
Qed.

Lemma toggled_risks (risk : DisasterRisk) (formData : FormData) :
  currentRisks (toggleRisk risk formData)
  = if existsb (DisasterRisk_eqb risk) (currentRisks formData)
    then List.filter (fun r => negb (DisasterRisk_eqb r risk))
                     (currentRisks formData)
    else (currentRisks formData ++ [risk])%list.
Proof. reflexivity. Qed.

(** X1. [toggleRisk] flips whether the risk is ticked and leaves every other
    risk as it was; a list without repetitions stays without repetitions,
    and no other field of the form changes. *)
Theorem toggleRisk_flips (risk : DisasterRisk) (formData : FormData) :
  (In risk (currentRisks (toggleRisk risk formData))
   <-> ~ In risk (currentRisks formData)) /\
  (forall r, r <> risk ->
             (In r (currentRisks (toggleRisk risk formData))
              <-> In r (currentRisks formData))) /\
  (NoDup (currentRisks formData) ->
   NoDup (currentRisks (toggleRisk risk formData))) /\
  (form_name (toggleRisk risk formData), form_village (toggleRisk risk formData),
   form_district (toggleRisk risk formData), form_type (toggleRisk risk formData),
   form_capacity (toggleRisk risk formData),
   form_latitude (toggleRisk risk formData),
   form_longitude (toggleRisk risk formData))
  = (form_name formData, form_village formData, form_district formData,
     form_type formData, form_capacity formData, form_latitude formData,
     form_longitude formData).
Proof.
  rewrite toggled_risks.
  destruct (existsb _ _) eqn:Hin.
  - apply includes_In in Hin.
    split; [|split; [|split; [|reflexivity]]].
    + rewrite without_In. split; [intros [_ H]; congruence | tauto].
    + intros r Hr. rewrite without_In. tauto.
    + intros Hnd. apply NoDup_ListNoDup, List.NoDup_filter, NoDup_ListNoDup, Hnd.
  - assert (~ In risk (currentRisks formData)) as Hout.
    { intros H. apply includes_In in H. congruence. }
    split; [|split; [|split; [|reflexivity]]].
    + split; [intros _; exact Hout|]. intros _. apply in_or_app. right. left.
      reflexivity.
    + intros r Hr. rewrite in_app_iff. simpl. split; [|tauto].
      intros [H|[H|[]]]; [exact H | congruence].
    + intros Hnd. apply NoDup_app. split; [exact Hnd|]. split.
      * intros r Hr Hr'. apply list_elem_of_In in Hr, Hr'.
        destruct Hr' as [<-|[]]. contradiction.
      * apply NoDup_singleton.
Qed.

(** X2. Toggling the same risk twice gives back the same set of risks when
    the list had no repetition (a risk that was ticked moves to the end),
    and the very same list when the risk was not ticked. *)
Theorem toggleRisk_twice (risk : DisasterRisk) (formData : FormData) :
  NoDup (currentRisks formData) ->
  Permutation (currentRisks (toggleRisk risk (toggleRisk risk formData)))
              (currentRisks formData) /\
  (~ In risk (currentRisks formData) ->
   currentRisks (toggleRisk risk (toggleRisk risk formData))
   = currentRisks formData).
Proof.
  intros Hnd. split.
  - destruct (toggleRisk_flips risk formData) as (H1 & H2 & H3 & _).
    destruct (toggleRisk_flips risk (toggleRisk risk formData))
      as (H1' & H2' & H3' & _).
    apply NoDup_Permutation; [apply H3', H3, Hnd | exact Hnd|].
    intros r. rewrite !list_elem_of_In.
    destruct (DisasterRisk_eqb r risk) eqn:E.
    + apply DisasterRisk_eqb_eq in E. subst r. rewrite H1', H1.
      destruct (existsb (DisasterRisk_eqb risk) (currentRisks formData)) eqn:Ex.
      * apply includes_In in Ex. tauto.
      * assert (~ In risk (currentRisks formData))
          by (intros H; apply includes_In in H; congruence).
        tauto.
    + assert (r <> risk) as Hr
          by (intros ->; destruct risk; discriminate E).
      rewrite (H2' r Hr), (H2 r Hr). reflexivity.
  - intros Hout. rewrite (toggled_risks risk (toggleRisk risk formData)).
    rewrite (toggled_risks risk formData).
    assert (existsb (DisasterRisk_eqb risk) (currentRisks formData) = false)
      as ->.
    { destruct (existsb _ _) eqn:E; [|reflexivity].
      apply includes_In in E. contradiction. }
    assert (existsb (DisasterRisk_eqb risk) (currentRisks formData ++ [risk])
            = true) as ->.
    { apply includes_In, in_or_app. right. left. reflexivity. }
    rewrite List.filter_app. simpl.
    assert (DisasterRisk_eqb risk risk = true) as ->
        by (apply DisasterRisk_eqb_eq; reflexivity).
    simpl. rewrite app_nil_r. apply filter_all.
    intros r Hr. apply negb_true_iff.
    destruct (DisasterRisk_eqb r risk) eqn:E; [|reflexivity].
    apply DisasterRisk_eqb_eq in E. congruence.
Qed.

Lemma toggleRisk_twice_witness :
  NoDup (currentRisks (toggleRisk Banjir Samples.filled)) /\
  Permutation
    (currentRisks (toggleRisk Banjir
                     (toggleRisk Banjir (toggleRisk Banjir Samples.filled))))
    (currentRisks (toggleRisk Banjir Samples.filled)).
Proof.
  assert (NoDup (currentRisks (toggleRisk Banjir Samples.filled))) as Hnd
      by (apply NoDup_singleton).
  split; [exact Hnd|].
  apply (toggleRisk_twice Banjir (toggleRisk Banjir Samples.filled) Hnd).
Defined.

End RiskToggling.

Section RiskHistory.

Import InputForm.

Lemma odd_succ_negb (n : nat) : Nat.odd (S n) = negb (Nat.odd n).
Proof. rewrite Nat.odd_succ, <- Nat.negb_odd. reflexivity. Qed.

(** X3. Starting from the blank form, after any sequence of clicks on the
    risk checkboxes the list of risks has no repetition, so it has at most
    three entries, and a risk is in it exactly when it was clicked an odd
    number of times. *)
Theorem ticked_iff_odd (clicks : list DisasterRisk) (risk : DisasterRisk) :
  let formData := fold_left (fun fd r => toggleRisk r fd) clicks blank in
  NoDup (currentRisks formData) /\
  (length (currentRisks formData) <= 3)%nat /\
  (In risk (currentRisks formData)
   <-> Nat.odd (length (List.filter (DisasterRisk_eqb risk) clicks)) = true).
Proof.
  simpl.
  assert (NoDup (currentRisks (fold_left (fun fd r => toggleRisk r fd)
                                         clicks blank)) /\
          (In risk (currentRisks (fold_left (fun fd r => toggleRisk r fd)
                                            clicks blank))
           <-> Nat.odd (length (List.filter (DisasterRisk_eqb risk) clicks))
               = true)) as [Hnd Hodd].
  { induction clicks as [|r clicks [IHnd IHodd]] using rev_ind.
    - simpl. split; [apply NoDup_nil_2|]. split; [intros []|discriminate].
    - rewrite fold_left_app. simpl.
      set (fd := fold_left (fun fd r => toggleRisk r fd) clicks blank) in *.
      destruct (toggleRisk_flips r fd) as (H1 & H2 & H3 & _).
      split; [apply H3, IHnd|].
      rewrite List.filter_app, length_app. simpl.
      destruct (DisasterRisk_eqb risk r) eqn:E.
      + apply DisasterRisk_eqb_eq in E. subst r. simpl.
        rewrite Nat.add_1_r, odd_succ_negb, negb_true_iff, H1, IHodd.
        destruct (Nat.odd _); split; congruence.
      + simpl. rewrite Nat.add_0_r, <- IHodd. apply H2.
        intros ->. destruct r; discriminate E. }
  split; [exact Hnd|]. split; [|exact Hodd].
  change 3%nat with (length RISK_TYPES).
  apply submseteq_length, NoDup_submseteq; [exact Hnd|].
  intros r _. apply list_elem_of_In. destruct r; simpl; tauto.
Qed.

End RiskHistory.

(** ** What a submission creates *)

Section Submissions.

Import InputForm.

Lemma submit_cases (now : N) (formData : FormData) (st : App.State) :
  (App.submit now formData st = (st, formData, incomplete) /\
   (missing (form_name formData) \/ missing (form_village formData)))
  \/
  (exists a n b v,
      form_name formData = Some (String a n) /\
      form_village formData = Some (String b v) /\
      App.submit now formData st
      = (App.addSpot
           {| id := timestamp now;
              name := String a n;
              village := String b v;
              district := str_or (form_district formData) "Brati";
              type := match form_type formData with
                      | Some t => t
                      | None => Wisata_Alam
                      end;
              capacity := or_else (Number (form_capacity formData)) zero;
              risks := currentRisks formData;
              latitude := form_latitude formData;
              longitude := form_longitude formData |} st,
         blank, saved)).
Proof.
  unfold App.submit, handleSubmit.
  destruct (missing_dec (form_name formData)) as [Hn|(a & n & Hn)].
  - left. split; [|left; exact Hn]. destruct Hn as [-> | ->]; reflexivity.
  - destruct (missing_dec (form_village formData)) as [Hv|(b & v & Hv)].
    + left. split; [|right; exact Hv]. rewrite Hn.
      destruct Hv as [-> | ->]; reflexivity.
    + right. exists a, n, b, v. rewrite Hn, Hv. repeat split.
Qed.

Lemma str_or_nonempty (field : option string) (d : string) :
  d <> "" -> str_or field d <> "".
Proof. intros Hd. destruct field as [[|c r]|]; simpl; congruence. Qed.

(** X4. A record that a submission adds to the store has a name, a village
    and a district that are not empty. Its district is the form's, or
    ["Brati"] when the form has none, and so is one of the nineteen
    districts whenever the form's is; its type is the form's, or
    ["Wisata Alam"] when the form has none; its risks and coordinates are
    those of the form and its id is the clock reading in decimal. *)
Theorem created_record (now : N) (formData : FormData) (st : App.State)
    (newSpot : TouristSpot) :
  App.submit now formData st = (App.addSpot newSpot st, blank, saved) ->
  name newSpot <> "" /\ village newSpot <> "" /\ district newSpot <> "" /\
  form_name formData = Some (name newSpot) /\
  form_village formData = Some (village newSpot) /\
  district newSpot = str_or (form_district formData) "Brati" /\
  (form_district formData = None \/ form_district formData = Some "" \/
   (exists d, form_district formData = Some d /\ In d DISTRICTS) ->
   In (district newSpot) DISTRICTS) /\
  type newSpot = match form_type formData with
                 | Some t => t
                 | None => Wisata_Alam
                 end /\
  risks newSpot = currentRisks formData /\
  latitude newSpot = form_latitude formData /\
  longitude newSpot = form_longitude formData /\
  id newSpot = timestamp now.
Proof.
  intros Hs.
  destruct (submit_cases now formData st)
    as [[E _]|(a & n & b & v & Hn & Hv & E)];
    rewrite E in Hs.
  - apply (f_equal snd) in Hs. discriminate Hs.
  - apply (f_equal (fun result => App.spots (fst (fst result)))) in Hs.
    simpl in Hs. injection Hs as <-. simpl.
    split; [discriminate|]. split; [discriminate|].
    split; [apply str_or_nonempty; discriminate|].
    split; [exact Hn|]. split; [exact Hv|]. split; [reflexivity|].
    split; [|repeat split].
    intros [-> | [-> | (d & -> & Hd)]]; simpl; try tauto.
    destruct d; [simpl; tauto | exact Hd].
Qed.

Lemma created_record_witness :
  App.submit 1700000000000 Samples.filled App.initial
  = (App.addSpot Samples.bledug_kuwu App.initial, blank, saved) /\
  In (district Samples.bledug_kuwu) DISTRICTS /\
  id Samples.bledug_kuwu = timestamp 1700000000000.
Proof.
  assert (App.submit 1700000000000 Samples.filled App.initial
          = (App.addSpot Samples.bledug_kuwu App.initial, blank, saved)) as Hs
      by reflexivity.
  split; [exact Hs|].
  destruct (created_record _ _ _ _ Hs)
    as (_ & _ & _ & _ & _ & _ & Hd & _ & _ & _ & _ & Hid).
  split; [|exact Hid].
  apply Hd. right. right. exists "Kradenan". split; [reflexivity|].
  simpl. tauto.
Defined.

(** X5. Submitting again at once, with the form as the first submission
    left it, never adds a record: after a submission that went through the
    form is blank, and after one that was blocked it is still incomplete. *)
Theorem resubmit_blocked (now now' : N) (formData : FormData)
    (st : App.State) :
  let first := App.submit now formData st in
  App.submit now' (snd (fst first)) (fst (fst first))
  = (fst (fst first), snd (fst first), incomplete).
Proof.
  simpl.
  destruct (submit_cases now formData st)
    as [[E Hm]|(a & n & b & v & _ & _ & E)];
    rewrite E; simpl; [|reflexivity].
  destruct (submit_cases now' formData st)
    as [[E' _]|(a & n & b & v & Hn & Hv & _)]; [exact E'|].
  exfalso. destruct Hm as [[H|H]|[H|H]]; congruence.
Qed.

End Submissions.

(** ** Ids and the order of the stored list *)

Section StoreHistory.

Import InputForm.

Lemma timestamp_inj (a b : N) : timestamp a = timestamp b -> a = b.
Proof.
  unfold timestamp. intros H.
  assert (forall n : N, N.to_uint n <> Decimal.Nil) as Hnil.
  { intros [|p]; [discriminate | apply DecimalPos.Unsigned.to_uint_nonnil]. }
  apply (f_equal NilZero.uint_of_string) in H.
  rewrite !NilZero.usu in H by apply Hnil.
  injection H as H. apply DecimalN.Unsigned.to_uint_inj. exact H.
Qed.

Lemma run_snoc (events : list App.event) (e : App.event) (st : App.State) :
  App.run (events ++ [e]) st = App.handle (App.run events st) e.
Proof. unfold App.run. rewrite fold_left_app. reflexivity. Qed.

Lemma clock_snoc (events : list App.event) (e : App.event) :
  App.clock (events ++ [e]) = (App.clock events ++ App.clock [e])%list.
Proof. unfold App.clock. rewrite flat_map_app. reflexivity. Qed.

Lemma filter_stamped (id' : string) (l : list TouristSpot) :
  forall times : list N,
    map id l = map timestamp times ->
    map id (List.filter (fun s => negb (String.eqb (id s) id')) l)
    = map timestamp
        (List.filter (fun t => negb (String.eqb (timestamp t) id')) times).
Proof.
  induction l as [|s l IH]; intros [|t times] H; simpl in *;
    try discriminate; [reflexivity|].
  injection H as Hs Hl. rewrite <- Hs.
  destruct (String.eqb (id s) id'); simpl; [|f_equal; [exact Hs|]];
    apply IH, Hl.
Qed.

Lemma StronglySorted_filter {A : Type} (R : A -> A -> Prop) (f : A -> bool)
    (l : list A) :
  StronglySorted R l -> StronglySorted R (List.filter f l).
Proof.
  induction 1 as [|a l Hs IH Hall]; simpl; [constructor|].
  destruct (f a); [|exact IH]. constructor; [exact IH|].
  rewrite List.Forall_forall in *. intros x Hx.
  apply List.filter_In in Hx as [Hx _]. apply Hall, Hx.
Qed.

Lemma descending_NoDup (times : list N) :
  StronglySorted (fun a b => (b < a)%N) times ->
  NoDup (map timestamp times).
Proof.
  induction 1 as [|a l Hs IH Hall]; simpl; [apply NoDup_nil_2|].
  apply NoDup_cons_2; [|exact IH].
  intros Hin. apply list_elem_of_In, in_map_iff in Hin as (b & E & Hb).
  apply timestamp_inj in E. subst b.
  rewrite List.Forall_forall in Hall. specialize (Hall a Hb). lia.
Qed.

(** X6. Two clock readings give the same id only when they are the same
    reading. So when every submission happens at a later reading than the
    one before, then after any sequence of submissions and deletions on the
    empty store the ids in the list are the readings of submissions that
    were made, newest first, and no two records share an id. *)
Theorem ids_follow_the_clock (events : list App.event) :
  StronglySorted N.lt (App.clock events) ->
  (forall a b : N, timestamp a = timestamp b <-> a = b) /\
  exists times : list N,
    map id (App.spots (App.run events App.initial)) = map timestamp times /\
    StronglySorted (fun a b => (b < a)%N) times /\
    incl times (App.clock events) /\
    NoDup (map id (App.spots (App.run events App.initial))).
Proof.
  intros Hclock.
  split; [intros a b; split; [apply timestamp_inj | intros ->; reflexivity]|].
  assert (exists times : list N,
             map id (App.spots (App.run events App.initial))
             = map timestamp times /\
             StronglySorted (fun a b => (b < a)%N) times /\
             incl times (App.clock events)) as (times & Hid & Hdesc & Hincl).
  { induction events as [|e events IH] using rev_ind.
    - exists []. repeat split; [constructor | intros ? []].
    - rewrite clock_snoc in Hclock.
      destruct (IH (StronglySorted_app_1_l _ _ _ Hclock))
        as (times & Hid & Hdesc & Hincl).
      rewrite run_snoc, clock_snoc.
      set (st := App.run events App.initial) in *.
      destruct e as [now formData|confirmed id']; simpl.
      + destruct (submit_cases now formData st)
          as [[E _]|(a & n & b & v & _ & _ & E)]; rewrite E; simpl.
        * exists times. split; [exact Hid|]. split; [exact Hdesc|].
          intros t Ht. apply in_or_app. left. apply Hincl, Ht.
        * exists (now :: times). split; [simpl; f_equal; exact Hid|]. split.
          -- constructor; [exact Hdesc|].
             apply List.Forall_forall. intros t Ht.
             apply (StronglySorted_app_1_elem_of _ _ _ t now Hclock).
             ++ apply list_elem_of_In, Hincl, Ht.
             ++ apply list_elem_of_In. left. reflexivity.
          -- intros t [<-|Ht]; apply in_or_app;
               [right; left; reflexivity | left; apply Hincl, Ht].
      + rewrite app_nil_r. destruct confirmed; simpl.
        * eexists. split; [apply filter_stamped, Hid|].
          split; [apply StronglySorted_filter, Hdesc|].
          intros t Ht. apply List.filter_In in Ht as [Ht _]. apply Hincl, Ht.
        * exists times. repeat split; assumption. }
  exists times. split; [exact Hid|]. split; [exact Hdesc|].
  split; [exact Hincl|]. rewrite Hid. apply descending_NoDup, Hdesc.
Qed.

Lemma ids_follow_the_clock_witness :
  StronglySorted N.lt
    (App.clock [App.submission 1700000000000 Samples.filled;
                App.deletion false "1700000000000";
                App.submission 1700000000001 Samples.filled]) /\
  NoDup (map id (App.spots
                   (App.run [App.submission 1700000000000 Samples.filled;
                             App.deletion false "1700000000000";
                             App.submission 1700000000001 Samples.filled]
                            App.initial))).
Proof.
  assert (StronglySorted N.lt
            (App.clock [App.submission 1700000000000 Samples.filled;
                        App.deletion false "1700000000000";
                        App.submission 1700000000001 Samples.filled])) as Hc.
  { simpl. repeat constructor. }
  split; [exact Hc|].
  destruct (ids_follow_the_clock _ Hc) as (_ & times & _ & _ & _ & Hnd).
  exact Hnd.
Defined.

(** X7. Two submissions at the same clock reading create two records with
    the same id, and a confirmed deletion of that id then removes both:
    the list is what the deletion would have left of the list before the
    two submissions. *)
Theorem same_millisecond (now : N) (first second : FormData)
    (st : App.State) :
  ~ missing (form_name first) -> ~ missing (form_village first) ->
  ~ missing (form_name second) -> ~ missing (form_village second) ->
  let st' := App.run [App.submission now first; App.submission now second] st in
  (exists a b : TouristSpot,
      App.spots st' = b :: a :: App.spots st /\
      id a = timestamp now /\ id b = timestamp now) /\
  App.spots (App.deleteSpot true (timestamp now) st')
  = App.spots (App.deleteSpot true (timestamp now) st).
Proof.
  intros Hn1 Hv1 Hn2 Hv2. simpl.
  destruct (submit_cases now first st)
    as [[_ [H|H]]|(a1 & n1 & b1 & v1 & _ & _ & E1)]; try contradiction.
  rewrite E1. simpl.
  match goal with
  | |- context [App.submit now second ?s] =>
      destruct (submit_cases now second s)
        as [[_ [H|H]]|(a2 & n2 & b2 & v2 & _ & _ & E2)]; try contradiction
  end.
  rewrite E2. simpl. split.
  - eexists _, _. repeat split.
  - rewrite !String.eqb_refl. reflexivity.
Qed.

Lemma same_millisecond_witness :
  ~ missing (form_name Samples.filled) /\
  ~ missing (form_village Samples.filled) /\
  App.spots (App.deleteSpot true (timestamp 1700000000000)
               (App.run [App.submission 1700000000000 Samples.filled;
                         App.submission 1700000000000 Samples.filled]
                        App.initial))
  = App.spots (App.deleteSpot true (timestamp 1700000000000) App.initial).
Proof.
  assert (~ missing (form_name Samples.filled)) as Hn
      by (intros [H|H]; discriminate H).
  assert (~ missing (form_village Samples.filled)) as Hv
      by (intros [H|H]; discriminate H).
  split; [exact Hn|]. split; [exact Hv|].
  apply (same_millisecond 1700000000000 Samples.filled Samples.filled
           App.initial Hn Hv Hn Hv).
Defined.

Lemma filter_filter_comm {A : Type} (f g : A -> bool) (l : list A) :
  List.filter f (List.filter g l) = List.filter g (List.filter f l).
Proof.
  induction l as [|x l IH]; simpl; [reflexivity|].
  destruct (f x) eqn:Ef, (g x) eqn:Eg; simpl; rewrite ?Ef, ?Eg, IH;
    reflexivity.
Qed.

Lemma filter_idem {A : Type} (f : A -> bool) (l : list A) :
  List.filter f (List.filter f l) = List.filter f l.
Proof.
  apply filter_all. intros x Hx. apply List.filter_In in Hx as [_ Hx].
  exact Hx.
Qed.

(** X8. Deleting the same id a second time changes nothing, and two
    deletions give the same state in either order. *)
Theorem deleteSpot_idempotent_commutes (c1 c2 : bool) (id1 id2 : string)
    (st : App.State) :
  App.deleteSpot c1 id1 (App.deleteSpot c1 id1 st) = App.deleteSpot c1 id1 st /\
  App.deleteSpot c1 id1 (App.deleteSpot c2 id2 st)
  = App.deleteSpot c2 id2 (App.deleteSpot c1 id1 st).
Proof.
  unfold App.deleteSpot. destruct c1, c2; simpl; split; try reflexivity;
    f_equal; first [apply filter_idem | apply filter_filter_comm].
Qed.

(** X9. Deleting a record that was just added, when no other record has
    its id, gives back the list as it was before. *)
Theorem delete_undoes_add (spot : TouristSpot) (st : App.State) :
  ~ In (id spot) (map id (App.spots st)) ->
  App.spots (App.deleteSpot true (id spot) (App.addSpot spot st))
  = App.spots st.
Proof.
  intros Hfresh. simpl. rewrite String.eqb_refl. simpl.
  apply filter_all. intros s Hs. apply negb_true_iff, String.eqb_neq.
  intros E. apply Hfresh. rewrite <- E. apply in_map, Hs.
Qed.

Lemma delete_undoes_add_witness :
  ~ In (id Samples.stray) (map id (App.spots (App.addSpot Samples.bledug_kuwu
                                                App.initial))) /\
  App.spots (App.deleteSpot true (id Samples.stray)
               (App.addSpot Samples.stray
                  (App.addSpot Samples.bledug_kuwu App.initial)))
  = App.spots (App.addSpot Samples.bledug_kuwu App.initial).
Proof.
  assert (~ In (id Samples.stray)
            (map id (App.spots (App.addSpot Samples.bledug_kuwu App.initial))))
    as Hfresh by (simpl; intros [H|[]]; discriminate H).
  split; [exact Hfresh|].
  apply (delete_undoes_add Samples.stray _ Hfresh).
Defined.

End StoreHistory.

(** ** More on the dashboard *)

Section DashboardViews.

Import Dashboard.

(** X10. The filtered list is empty exactly when the store is empty (filter
    ["Semua"]) or has no record of the selected district; the table then
    shows its placeholder, and every figure of the dashboard is zero: the
    total count, the total capacity, each type count and each district
    count. *)
Theorem nothing_to_show (selectedDistrict : string)
    (spots : list TouristSpot) :
  (filteredSpots selectedDistrict spots = []
   <-> if String.eqb selectedDistrict "Semua" then spots = []
       else Forall (fun s => district s <> selectedDistrict) spots) /\
  (filteredSpots selectedDistrict spots = [] ->
   totalCount selectedDistrict spots = 0%nat /\
   totalCapacity selectedDistrict spots = zero /\
   Forall (fun cell => snd cell = 0%nat) (byType selectedDistrict spots) /\
   Forall (fun cell => snd cell = 0%nat) (byDistrict selectedDistrict spots)).
Proof.
  split.
  - unfold filteredSpots. destruct (String.eqb selectedDistrict "Semua").
    + reflexivity.
    + induction spots as [|s l IH]; simpl.
      * split; [constructor | reflexivity].
      * destruct (String.eqb_spec (district s) selectedDistrict) as [E|N].
        -- split; [discriminate|]. intros H. inversion H. contradiction.
        -- rewrite IH. split; [constructor; assumption|].
           intros H. inversion H. assumption.
  - intros E. unfold totalCount, totalCapacity, byType, byDistrict.
    rewrite E. simpl. split; [reflexivity|]. split; [reflexivity|].
    split; [repeat constructor|].
    apply List.Forall_forall. intros cell Hc.
    apply in_map_iff in Hc as (d & <- & _). reflexivity.
Qed.

(** X11. Under every filter the three type counts sum to the total count,
    each count is the length of the list in that type's detail card, and
    the three detail lists together hold every filtered record exactly
    once. *)
Theorem type_breakdown (selectedDistrict : string)
    (spots : list TouristSpot) :
  total (byType selectedDistrict spots) = totalCount selectedDistrict spots /\
  byType selectedDistrict spots
  = map (fun t => (t, length (detail selectedDistrict spots t)))
        TOURISM_TYPES /\
  Permutation (detail selectedDistrict spots Wisata_Alam
               ++ detail selectedDistrict spots Wisata_Air
               ++ detail selectedDistrict spots Wisata_Religi)%list
              (filteredSpots selectedDistrict spots).
Proof.
  split; [apply total_byType|]. split; [reflexivity|].
  unfold detail.
  induction (filteredSpots selectedDistrict spots) as [|s l IH]; simpl.
  - constructor.
  - destruct (type s); simpl.
    + apply Permutation_sym, Permutation_cons_app, Permutation_sym, IH.
    + rewrite app_assoc.
      apply Permutation_sym, Permutation_cons_app, Permutation_sym.
      rewrite <- app_assoc. exact IH.
    + constructor. exact IH.
Qed.

(** X12. For each of the nineteen districts, the count shown in its cell of
    the grid under ["Semua"] is the total count shown once that district is
    selected, and the grid has one cell per district. *)
Theorem grid_agrees_with_filter (D : string) (spots : list TouristSpot) :
  In D DISTRICTS ->
  In (D, totalCount D spots) (byDistrict "Semua" spots) /\
  NoDup (map fst (byDistrict "Semua" spots)).
Proof.
  intros HD. split.
  - unfold byDistrict. simpl displayDistricts. rewrite filteredSpots_Semua.
    apply in_map_iff. exists D. split; [|exact HD].
    f_equal. unfold totalCount. rewrite filteredSpots_district; [reflexivity|].
    intros ->. exact (Semua_not_a_district HD).
  - unfold byDistrict. rewrite map_map. simpl displayDistricts.
    rewrite map_id. apply DISTRICTS_NoDup.
Qed.

Lemma grid_agrees_with_filter_witness :
  In "Geyer" DISTRICTS /\
  In ("Geyer", totalCount "Geyer" Samples.three_sites)
     (byDistrict "Semua" Samples.three_sites).
Proof.
  assert (In "Geyer" DISTRICTS) as HD by (simpl; tauto).
  split; [exact HD|].
  apply (grid_agrees_with_filter "Geyer" Samples.three_sites HD).
Defined.

(** X13. The filtered view follows the store: after a confirmed deletion it
    is the old view without the records of that id, and after an addition
    it has the new record in front when the record passes the filter and is
    unchanged when it does not. *)
Theorem filtered_view_follows_store (selectedDistrict id' : string)
    (spot : TouristSpot) (st : App.State) :
  filteredSpots selectedDistrict (App.spots (App.deleteSpot true id' st))
  = List.filter (fun s => negb (String.eqb (id s) id'))
                (filteredSpots selectedDistrict (App.spots st)) /\
  filteredSpots selectedDistrict (App.spots (App.addSpot spot st))
  = if String.eqb selectedDistrict "Semua"
       || String.eqb (district spot) selectedDistrict
    then spot :: filteredSpots selectedDistrict (App.spots st)
    else filteredSpots selectedDistrict (App.spots st).
Proof.
  unfold filteredSpots. simpl.
  destruct (String.eqb selectedDistrict "Semua"); simpl.
  - split; reflexivity.
  - split; [apply filter_filter_comm|].
    destruct (String.eqb (district spot) selectedDistrict); reflexivity.
Qed.

End DashboardViews.

(** ** Adding up capacities *)

Section CapacityTotals.

Import Dashboard.

Lemma binade_integer (n : positive) : binade n 1 = Z.log2 (Zpos n).
Proof.
  unfold binade. cbv zeta. change (Z.log2 1) with 0%Z. rewrite Z.sub_0_r.
  unfold pow2_le.
  pose proof (Z.log2_nonneg (Zpos n)) as Hlog.
  destruct (0 <=? Z.log2 (Zpos n))%Z eqn:E; [|apply Z.leb_gt in E; lia].
  destruct (Z.log2_spec (Zpos n)) as [Hlo _]; [lia|].
  assert ((Zpos 1 * 2 ^ Z.log2 (Zpos n) <=? Zpos n)%Z = true) as ->
      by (apply Z.leb_le; lia).
  reflexivity.
Qed.

(** An integer below [2^53] is a double: rounding leaves it as it is. *)
Lemma of_Q_exact (z : Z) :
  (0 <= z < 2 ^ 53)%Z -> of_Q (inject_Z z) = Finite (inject_Z z).
Proof.
  intros [Hlo Hhi]. unfold of_Q, inject_Z. simpl.
  destruct z as [|n|n]; [reflexivity| |lia].
  unfold round64_pos. rewrite binade_integer.
  assert (Z.log2 (Zpos n) < 53)%Z as Hlog
      by (apply Z.log2_lt_pow2; lia).
  pose proof (Z.log2_nonneg (Zpos n)) as Hnn.
  rewrite Z.max_l by lia.
  assert ((1023 <? Z.log2 (Zpos n))%Z = false) as -> by (apply Z.ltb_ge; lia).
  assert ((Z.log2 (Zpos n) =? 1023)%Z = false) as -> by (apply Z.eqb_neq; lia).
  simpl orb.
  destruct (0 <=? Z.log2 (Zpos n) - 52)%Z eqn:Hx.
  - apply Z.leb_le in Hx.
    assert (Z.log2 (Zpos n) - 52 = 0)%Z as -> by lia.
    change (2 ^ 0)%Z with 1%Z. rewrite !Z.mul_1_r.
    rewrite round_half_even_unit. reflexivity.
  - apply Z.leb_gt in Hx. rewrite round_half_even_unit.
    assert (0 < 2 ^ (- (Z.log2 (Zpos n) - 52)))%Z as Hp
        by (apply Z.pow_pos_nonneg; lia).
    destruct (2 ^ (- (Z.log2 (Zpos n) - 52)))%Z as [|p|p] eqn:Ep; try lia.
    simpl Z.to_pos. f_equal. apply Qred_integer.
Qed.

Lemma add_exact (a b : Z) :
  (0 <= a + b < 2 ^ 53)%Z ->
  JS.add (Finite (inject_Z a)) (Finite (inject_Z b)) = Finite (inject_Z (a + b)).
Proof.
  intros H. unfold JS.add.
  replace (inject_Z a + inject_Z b)%Q with (inject_Z (a + b)).
  - apply of_Q_exact, H.
  - unfold Qplus, inject_Z. simpl. rewrite !Z.mul_1_r. reflexivity.
Qed.

Lemma sum_nonneg (caps : list Z) :
  Forall (fun c => (0 <= c)%Z) caps -> (0 <= fold_right Z.add 0%Z caps)%Z.
Proof. induction 1; simpl; lia. Qed.

Lemma fold_add_exact (l : list TouristSpot) :
  forall (caps : list Z) (acc : Z),
    map capacity l = map (fun c => Finite (inject_Z c)) caps ->
    Forall (fun c => (0 <= c)%Z) caps ->
    (0 <= acc)%Z ->
    (acc + fold_right Z.add 0%Z caps < 2 ^ 53)%Z ->
    fold_left (fun acc curr => JS.add acc (capacity curr)) l
              (Finite (inject_Z acc))
    = Finite (inject_Z (acc + fold_right Z.add 0%Z caps)).
Proof.
  induction l as [|s l IH]; intros [|c caps] acc Hmap Hcaps Hacc Hsum;
    cbn [map] in Hmap; try discriminate;
    cbn [fold_left fold_right] in *.
  - rewrite Z.add_0_r. reflexivity.
  - injection Hmap as Hc Hmap. inversion Hcaps as [|? ? Hc0 Hcaps']; subst.
    pose proof (sum_nonneg caps Hcaps') as Hrest.
    rewrite Hc, add_exact by lia.
    rewrite (IH caps (acc + c)%Z Hmap Hcaps') by lia.
    f_equal. f_equal. lia.
Qed.

(** X14. When the capacities of the filtered records are non-negative
    integers whose sum is below [2^53], the total capacity shown is exactly
    that sum: no addition on the way rounds. *)
Theorem totalCapacity_exact (selectedDistrict : string)
    (spots : list TouristSpot) (caps : list Z) :
  map capacity (filteredSpots selectedDistrict spots)
  = map (fun c => Finite (inject_Z c)) caps ->
  Forall (fun c => (0 <= c)%Z) caps ->
  (fold_right Z.add 0%Z caps < 2 ^ 53)%Z ->
  totalCapacity selectedDistrict spots
  = Finite (inject_Z (fold_right Z.add 0%Z caps)).
Proof.
  intros Hmap Hcaps Hsum. unfold totalCapacity.
  apply (fold_add_exact _ caps 0%Z Hmap Hcaps); [lia | exact Hsum].
Qed.

Lemma totalCapacity_exact_witness :
  map capacity (filteredSpots "Semua" Samples.three_sites)
  = map (fun c => Finite (inject_Z c)) [500; 40; 1000]%Z /\
  Forall (fun c => (0 <= c)%Z) [500; 40; 1000]%Z /\
  (fold_right Z.add 0%Z [500; 40; 1000] < 2 ^ 53)%Z /\
  totalCapacity "Semua" Samples.three_sites = Finite (inject_Z 1540).
Proof.
  assert (map capacity (filteredSpots "Semua" Samples.three_sites)
          = map (fun c => Finite (inject_Z c)) [500; 40; 1000]%Z) as Hmap
      by reflexivity.
  assert (Forall (fun c => (0 <= c)%Z) [500; 40; 1000]%Z) as Hcaps
      by (repeat constructor; lia).
  assert (fold_right Z.add 0%Z [500; 40; 1000] < 2 ^ 53)%Z as Hsum
      by (simpl; lia).
  split; [exact Hmap|]. split; [exact Hcaps|]. split; [exact Hsum|].
  apply (totalCapacity_exact "Semua" Samples.three_sites _ Hmap Hcaps Hsum).
Defined.

End CapacityTotals.

(** ** More on the map *)

Section MapCoverage.

Import MapComponent.

Lemma assoc_key (k : string) (table : list (string * LatLng)) :
  In k (map fst table) -> exists c, assoc k table = Some c.
Proof.
  induction table as [|[k' v] rest IH]; simpl; [intros []|].
  destruct (String.eqb_spec k k') as [->|N].
  - intros _. exists v. reflexivity.
  - intros [E|H]; [congruence | apply IH, H].
Qed.

Lemma resolve_placed (spot : TouristSpot) (p : LatLng) :
  resolve spot = placed p -> truthy (fst p) && truthy (snd p) = true.
Proof.
  unfold resolve. destruct (coordinates spot) as [[lat lng]|]; [|discriminate].
  destruct (truthy lat && truthy lng) eqn:E; [|discriminate].
  intros [= <-]. exact E.
Qed.

(** A record of a district that the table knows is always placed. *)
Lemma known_district_placed (spot : TouristSpot) :
  In (district spot) DISTRICTS -> exists p, resolve spot = placed p.
Proof.
  intros Hd. rewrite <- table_keys in Hd.
  destruct (assoc_key _ _ Hd) as [c Hc].
  unfold resolve, coordinates.
  set (lat := parseFloat (str_or (latitude spot) "0")).
  set (lng := parseFloat (str_or (longitude spot) "0")).
  rewrite <- negb_andb.
  destruct (truthy lat && truthy lng) eqn:E; simpl.
  - rewrite E. eexists. reflexivity.
  - unfold DISTRICT_COORDINATES_get. rewrite Hc.
    pose proof centroids_truthy as Hall. rewrite List.Forall_forall in Hall.
    specialize (Hall _ (assoc_In _ _ _ Hc)). simpl in Hall.
    destruct c as [clat clng]. simpl in Hall. rewrite Hall.
    eexists. reflexivity.
Qed.

Lemma markers_from_bound (n : nat) (spots : list TouristSpot) :
  (length (markers_from n spots) <= length spots)%nat.
Proof.
  revert n. induction spots as [|spot rest IH]; intros n; simpl; [lia|].
  destruct (resolve spot); simpl.
  - specialize (IH (S n)). lia.
  - specialize (IH n). lia.
  - lia.
Qed.

Lemma markers_from_all_placed (n : nat) (spots : list TouristSpot) :
  Forall (fun spot => exists p, resolve spot = placed p) spots ->
  raises spots = false /\
  map popup (markers_from n spots)
  = map (fun spot => (name spot, district spot, type spot)) spots.
Proof.
  intros Hall. revert n. unfold raises.
  induction Hall as [|spot rest [p Hp] _ IH]; intros n; simpl.
  - split; reflexivity.
  - rewrite Hp. simpl. destruct (IH (S n)) as [Hr Hm].
    split; [exact Hr | f_equal; exact Hm].
Qed.

(** X15. After a run of the synchronisation on a mounted map there are never
    more markers than records. When every record has one of the nineteen
    districts, no record raises, and every record has its marker, however
    the call of [fitBounds] that follows ends: the popups are those of the
    records, one for one and in the order of the list. *)
Theorem one_marker_per_known_record
    (leaflet : LeafletMap -> LatLngBounds -> call)
    (spots : list TouristSpot) (r : Refs) (m : LeafletMap) :
  reachable leaflet r ->
  mapInstanceRef r = Some m ->
  (length (surface (fst (sync leaflet true spots r))) <= length spots)%nat /\
  (Forall (fun s => In (district s) DISTRICTS) spots ->
   snd (sync leaflet true spots r) <> TypeError /\
   map popup (surface (fst (sync leaflet true spots r)))
   = map (fun spot => (name spot, district spot, type spot)) spots).
Proof.
  intros Hreach Hm. pose proof (reachable_tracked _ r Hreach) as Htr.
  destruct (sync_markers leaflet spots r m Htr Hm) as (-> & _).
  split; [apply markers_from_bound|].
  intros Hall.
  assert (Forall (fun spot => exists p, resolve spot = placed p) spots) as Hp.
  { rewrite List.Forall_forall in *. intros s Hs.
    apply known_district_placed, Hall, Hs. }
  destruct (markers_from_all_placed (allocated r) spots Hp) as [Hr Hpop].
  split; [|exact Hpop].
  rewrite (sync_TypeError leaflet spots r m Htr Hm), Hr. discriminate.
Qed.

Lemma one_marker_per_known_record_witness :
  reachable Samples.well_behaved Samples.shown /\
  (exists m, mapInstanceRef Samples.shown = Some m) /\
  Forall (fun s => In (district s) DISTRICTS) Samples.two_sites /\
  snd (sync Samples.well_behaved true Samples.two_sites Samples.shown)
  <> TypeError /\
  map popup (surface (fst (sync Samples.well_behaved true Samples.two_sites
                                Samples.shown)))
  = [("Bledug Kuwu", "Kradenan", Wisata_Alam);
     ("Waduk Kedung Ombo", "Geyer", Wisata_Air)].
Proof.
  assert (Forall (fun s => In (district s) DISTRICTS) Samples.two_sites)
    as Hall by (repeat constructor; simpl; tauto).
  split; [exact shown_reachable|]. split; [eexists; reflexivity|].
  split; [exact Hall|].
  apply (proj2 (one_marker_per_known_record Samples.well_behaved
                  Samples.two_sites Samples.shown _ shown_reachable
                  eq_refl) Hall).
Defined.

(** X16. With a district selected that is one of the nineteen, the map
    shows as many markers as the total count of the dashboard, and every
    popup names that district. *)
Theorem map_agrees_with_total (leaflet : LeafletMap -> LatLngBounds -> call)
    (D : string) (spots : list TouristSpot) (r : Refs) (m : LeafletMap) :
  In D DISTRICTS ->
  reachable leaflet r ->
  mapInstanceRef r = Some m ->
  let shown :=
    surface (fst (sync leaflet true (Dashboard.filteredSpots D spots) r)) in
  length shown = Dashboard.totalCount D spots /\
  Forall (fun marker => snd (fst (popup marker)) = D) shown.
Proof.
  intros HD Hreach Hm. cbn zeta.
  pose proof (reachable_tracked _ r Hreach) as Htr.
  destruct (sync_markers leaflet (Dashboard.filteredSpots D spots) r m Htr Hm)
    as (-> & _).
  assert (Forall (fun s => district s = D) (Dashboard.filteredSpots D spots))
    as Hall.
  { rewrite filteredSpots_district
      by (intros ->; exact (Semua_not_a_district HD)).
    apply List.Forall_forall. intros s Hs.
    apply List.filter_In in Hs as [_ Hs]. apply String.eqb_eq, Hs. }
  assert (Forall (fun spot => exists p, resolve spot = placed p)
                 (Dashboard.filteredSpots D spots)) as Hp.
  { rewrite List.Forall_forall in *. intros s Hs.
    apply known_district_placed. rewrite (Hall s Hs). exact HD. }
  destruct (markers_from_all_placed (allocated r) _ Hp) as [_ Hpop].
  split.
  - unfold Dashboard.totalCount.
    rewrite <- (length_map popup), Hpop, length_map. reflexivity.
  - apply List.Forall_forall. intros marker Hin.
    apply (in_map popup) in Hin. rewrite Hpop in Hin.
    apply in_map_iff in Hin as (s & <- & Hs). simpl.
    rewrite List.Forall_forall in Hall. apply Hall, Hs.
Qed.

Lemma map_agrees_with_total_witness :
  In "Geyer" DISTRICTS /\
  reachable Samples.well_behaved Samples.shown /\
  (exists m, mapInstanceRef Samples.shown = Some m) /\
  length (surface (fst (sync Samples.well_behaved true
                             (Dashboard.filteredSpots
                                "Geyer" Samples.three_sites)
                             Samples.shown)))
  = Dashboard.totalCount "Geyer" Samples.three_sites.
Proof.
  assert (In "Geyer" DISTRICTS) as HD by (simpl; tauto).
  split; [exact HD|]. split; [exact shown_reachable|].
  split; [eexists; reflexivity|].
  eapply (map_agrees_with_total Samples.well_behaved "Geyer"
            Samples.three_sites Samples.shown).
  - exact HD.
  - exact shown_reachable.
  - reflexivity.
Defined.

(** X17. A record that a submission creates from a form whose district is
    missing, empty or one of the nineteen always gets a marker; when the
    form's latitude or longitude is missing, empty or ["0"], the marker is
    at the centroid of the record's district. *)
Theorem created_record_is_shown (now : N) (formData : InputForm.FormData)
    (st : App.State) (newSpot : TouristSpot) :
  App.submit now formData st
  = (App.addSpot newSpot st, InputForm.blank, InputForm.saved) ->
  InputForm.form_district formData = None \/
  InputForm.form_district formData = Some "" \/
  (exists d, InputForm.form_district formData = Some d /\ In d DISTRICTS) ->
  (exists p, resolve newSpot = placed p) /\
  (forall absent : option string,
      absent = None \/ absent = Some "" \/ absent = Some "0" ->
      InputForm.form_latitude formData = absent \/
      InputForm.form_longitude formData = absent ->
      exists c, assoc (district newSpot) DISTRICT_COORDINATES = Some c /\
                resolve newSpot = placed c).
Proof.
  intros Hs Hd.
  assert (In (district newSpot) DISTRICTS /\
          latitude newSpot = InputForm.form_latitude formData /\
          longitude newSpot = InputForm.form_longitude formData)
    as (Hin & Hlat & Hlng).
  { destruct (submit_cases now formData st)
      as [[E _]|(a & n & b & v & _ & _ & E)]; rewrite E in Hs.
    - apply (f_equal snd) in Hs. discriminate Hs.
    - apply (f_equal (fun result => App.spots (fst (fst result)))) in Hs.
      simpl in Hs. injection Hs as <-. simpl.
      split; [|split; reflexivity].
      destruct Hd as [-> | [-> | (d & -> & Hd)]]; simpl; try tauto.
      destruct d; [simpl; tauto | exact Hd]. }
  split; [apply known_district_placed, Hin|].
  intros absent Habs Hfield.
  pose proof Hin as Hkey. rewrite <- table_keys in Hkey.
  destruct (assoc_key _ _ Hkey) as [c Hc]. exists c. split; [exact Hc|].
  unfold resolve, coordinates. rewrite Hlat, Hlng.
  assert (negb (truthy (parseFloat (str_or (InputForm.form_latitude formData) "0")))
          || negb (truthy (parseFloat
                             (str_or (InputForm.form_longitude formData) "0")))
          = true) as ->.
  { destruct Hfield as [-> | ->]; rewrite (absent_coordinate absent Habs);
      simpl; [reflexivity | apply orb_true_r]. }
  unfold DISTRICT_COORDINATES_get. rewrite Hc.
  pose proof centroids_truthy as Hall. rewrite List.Forall_forall in Hall.
  specialize (Hall _ (assoc_In _ _ _ Hc)). simpl in Hall.
  destruct c as [clat clng]. simpl in Hall. rewrite Hall. reflexivity.
Qed.

Lemma created_record_is_shown_witness :
  App.submit 1700000000000 Samples.filled App.initial
  = (App.addSpot Samples.bledug_kuwu App.initial,
     InputForm.blank, InputForm.saved) /\
  exists c, assoc (district Samples.bledug_kuwu) DISTRICT_COORDINATES = Some c /\
            resolve Samples.bledug_kuwu = placed c.
Proof.
  assert (App.submit 1700000000000 Samples.filled App.initial
          = (App.addSpot Samples.bledug_kuwu App.initial,
             InputForm.blank, InputForm.saved)) as Hs by reflexivity.
  split; [exact Hs|].
  assert (InputForm.form_district Samples.filled = None \/
          InputForm.form_district Samples.filled = Some "" \/
          (exists d, InputForm.form_district Samples.filled = Some d /\
                     In d DISTRICTS)) as Hd.
  { right. right. exists "Kradenan". split; [reflexivity | simpl; tauto]. }
  destruct (created_record_is_shown _ _ _ _ Hs Hd) as [_ Hc].
  apply (Hc (Some "")); [right; left; reflexivity | left; reflexivity].
Defined.

End MapCoverage.

(** ** The fitted bounds *)

Section FittedBounds.

Import MapComponent.

Lemma truthy_is_number (n : number) : truthy n = true -> is_number n.
Proof. intros H E. rewrite E in H. discriminate H. Qed.

Lemma leb_refl (n : number) : is_number n -> JS.leb n n = true.
Proof.
  destruct n as [|[]|q]; simpl; intros H; try reflexivity.
  - contradiction.
  - apply Qle_bool_iff, Qle_refl.
Qed.

Lemma leb_total (a b : number) :
  is_number a -> is_number b -> JS.leb a b = true \/ JS.leb b a = true.
Proof.
  destruct a as [|[]|x], b as [|[]|y]; simpl; intros Ha Hb; auto;
    try contradiction.
  destruct (Qlt_le_dec x y) as [H|H].
  - left. apply Qle_bool_iff, Qlt_le_weak, H.
  - right. apply Qle_bool_iff, H.
Qed.

Lemma leb_trans (a b c : number) :
  JS.leb a b = true -> JS.leb b c = true -> JS.leb a c = true.
Proof.
  destruct a as [|[]|x], b as [|[]|y], c as [|[]|z]; simpl;
    try reflexivity; try discriminate.
  rewrite !Qle_bool_iff. apply Qle_trans.
Qed.

Lemma min_spec (a b : number) :
  is_number a -> is_number b ->
  is_number (JS.min a b) /\
  JS.leb (JS.min a b) a = true /\ JS.leb (JS.min a b) b = true.
Proof.
  intros Ha Hb. unfold JS.min. destruct (JS.leb a b) eqn:E.
  - split; [exact Ha|]. split; [apply leb_refl, Ha | exact E].
  - destruct (leb_total a b Ha Hb) as [H|H]; [congruence|].
    split; [exact Hb|]. split; [exact H | apply leb_refl, Hb].
Qed.

Lemma max_spec (a b : number) :
  is_number a -> is_number b ->
  is_number (JS.max a b) /\
  JS.leb a (JS.max a b) = true /\ JS.leb b (JS.max a b) = true.
Proof.
  intros Ha Hb. unfold JS.max. destruct (JS.leb a b) eqn:E.
  - split; [exact Hb|]. split; [exact E | apply leb_refl, Hb].
  - destruct (leb_total a b Ha Hb) as [H|H]; [congruence|].
    split; [exact Ha|]. split; [apply leb_refl, Ha | exact H].
Qed.

Lemma contains_spec (sw ne p : LatLng) :
  contains (Some (sw, ne)) p = true
  <-> (JS.leb (fst sw) (fst p) = true /\ JS.leb (fst p) (fst ne) = true) /\
      (JS.leb (snd sw) (snd p) = true /\ JS.leb (snd p) (snd ne) = true).
Proof. simpl. rewrite !andb_true_iff. tauto. Qed.

(** Extending a box keeps what it held and takes in the new position. *)
Lemma extend_grows (sw ne p : LatLng) :
  is_position sw -> is_position ne -> is_position p ->
  exists sw' ne',
    extend (Some (sw, ne)) p = Some (sw', ne') /\
    is_position sw' /\ is_position ne' /\
    contains (Some (sw', ne')) p = true /\
    forall q, contains (Some (sw, ne)) q = true ->
              contains (Some (sw', ne')) q = true.
Proof.
  intros [Hsw1 Hsw2] [Hne1 Hne2] [Hp1 Hp2]. simpl extend.
  destruct (min_spec (fst p) (fst sw) Hp1 Hsw1) as (Na & La1 & La2).
  destruct (min_spec (snd p) (snd sw) Hp2 Hsw2) as (Nb & Lb1 & Lb2).
  destruct (max_spec (fst p) (fst ne) Hp1 Hne1) as (Nc & Lc1 & Lc2).
  destruct (max_spec (snd p) (snd ne) Hp2 Hne2) as (Nd & Ld1 & Ld2).
  eexists _, _. split; [reflexivity|].
  split; [split; assumption|]. split; [split; assumption|]. split.
  - apply contains_spec. simpl. tauto.
  - intros q Hq. apply contains_spec in Hq as [[H1 H2] [H3 H4]].
    apply contains_spec. simpl. repeat split;
      eauto using leb_trans.
Qed.

Lemma bounds_snoc (positions : list LatLng) (p : LatLng) :
  bounds (positions ++ [p]) = extend (bounds positions) p.
Proof. unfold bounds. rewrite fold_left_app. reflexivity. Qed.

Lemma bounds_cover (positions : list LatLng) :
  Forall is_position positions ->
  positions <> [] ->
  exists sw ne,
    bounds positions = Some (sw, ne) /\
    is_position sw /\ is_position ne /\
    Forall (fun p => contains (Some (sw, ne)) p = true) positions.
Proof.
  induction positions as [|p positions IH] using rev_ind; [congruence|].
  intros Hall _. apply Forall_app in Hall as [Hall Hp].
  inversion Hp as [|? ? Hp' _]; subst. rewrite bounds_snoc.
  destruct positions as [|q positions].
  - simpl. exists p, p. split; [reflexivity|].
    split; [exact Hp'|]. split; [exact Hp'|].
    constructor; [|constructor].
    destruct Hp' as [H1 H2]. apply contains_spec.
    repeat split; apply leb_refl; assumption.
  - destruct (IH Hall) as (sw & ne & Hb & Hsw & Hne & Hin); [discriminate|].
    rewrite Hb.
    destruct (extend_grows sw ne p Hsw Hne Hp')
      as (sw' & ne' & He & Hsw' & Hne' & Hcp & Hmono).
    exists sw', ne'. split; [exact He|].
    split; [exact Hsw'|]. split; [exact Hne'|].
    apply Forall_app. split; [|constructor; [exact Hcp|constructor]].
    rewrite List.Forall_forall in *. intros x Hx. apply Hmono, Hin, Hx.
Qed.

Lemma markers_from_positions (n : nat) (spots : list TouristSpot) :
  Forall is_position (map latlng (markers_from n spots)).
Proof.
  revert n. induction spots as [|spot rest IH]; intros n; simpl.
  - constructor.
  - destruct (resolve spot) as [p| |] eqn:E; simpl; [|apply IH|constructor].
    constructor; [|apply IH].
    apply resolve_placed, andb_true_iff in E as [H1 H2].
    split; apply truthy_is_number; assumption.
Qed.

(** X18. After a run of the synchronisation that completes and leaves at
    least one marker on the map, the viewport is fitted to a box that
    contains the position of every marker. *)
Theorem fitted_bounds_contain_markers
    (leaflet : LeafletMap -> LatLngBounds -> call)
    (spots : list TouristSpot) (r : Refs) (m : LeafletMap) :
  reachable leaflet r ->
  mapInstanceRef r = Some m ->
  snd (sync leaflet true spots r) = completed ->
  surface (fst (sync leaflet true spots r)) <> [] ->
  exists sw ne : LatLng,
    viewport (fst (sync leaflet true spots r))
    = Some (fitBounds (Some (sw, ne)) (50, 50)%Z) /\
    Forall (fun marker => contains (Some (sw, ne)) (latlng marker) = true)
           (surface (fst (sync leaflet true spots r))).
Proof.
  intros Hreach Hm. pose proof (reachable_tracked _ r Hreach) as Htr.
  rewrite (sync_mounted leaflet spots r m Htr Hm). cbn zeta.
  unfold surface, viewport. simpl.
  destruct (raises spots); [discriminate|].
  pose proof (markers_from_positions (allocated r) spots) as Hpos.
  destruct (markers_from (allocated r) spots) as [|marker rest];
    [intros _ Hne; congruence|].
  simpl Nat.ltb. cbv iota.
  destruct (leaflet _ _); [|discriminate..]. intros _ _.
  assert (getBounds (marker :: rest) = bounds (map latlng (marker :: rest)))
    as ->.
  { rewrite getBounds_positions, map_map. reflexivity. }
  destruct (bounds_cover (map latlng (marker :: rest)))
    as (sw & ne & Hb & _ & _ & Hin).
  { exact Hpos. }
  { discriminate. }
  exists sw, ne. rewrite Hb. split; [reflexivity|].
  rewrite List.Forall_forall in *. intros x Hx. apply Hin, in_map, Hx.
Qed.

Lemma fitted_bounds_contain_markers_witness :
  reachable Samples.well_behaved Samples.shown /\
  (exists m, mapInstanceRef Samples.shown = Some m) /\
  snd (sync Samples.well_behaved true Samples.three_sites Samples.shown)
  = completed /\
  surface (fst (sync Samples.well_behaved true Samples.three_sites
                     Samples.shown)) <> [] /\
  exists sw ne : LatLng,
    viewport (fst (sync Samples.well_behaved true Samples.three_sites
                        Samples.shown))
    = Some (fitBounds (Some (sw, ne)) (50, 50)%Z) /\
    Forall (fun marker => contains (Some (sw, ne)) (latlng marker) = true)
           (surface (fst (sync Samples.well_behaved true Samples.three_sites
                               Samples.shown))).
Proof.
  assert (snd (sync Samples.well_behaved true Samples.three_sites
                    Samples.shown) = completed)
    as Hc by reflexivity.
  assert (surface (fst (sync Samples.well_behaved true Samples.three_sites
                             Samples.shown)) <> [])
    as Hne by discriminate.
  split; [exact shown_reachable|]. split; [eexists; reflexivity|].
  split; [exact Hc|]. split; [exact Hne|].
  eapply (fitted_bounds_contain_markers Samples.well_behaved
            Samples.three_sites Samples.shown).
  - exact shown_reachable.
  - reflexivity.
  - exact Hc.
  - exact Hne.
Defined.

End FittedBounds.

(** ** A record that makes the loop raise *)

Section Raising.

Import MapComponent.

Lemma resolve_raised_iff (spot : TouristSpot) :
  resolve spot = raised
  <-> truthy (parseFloat (str_or (latitude spot) "0"))
      && truthy (parseFloat (str_or (longitude spot) "0")) = false /\
      assoc (district spot) DISTRICT_COORDINATES = None /\
      In (district spot) Object_prototype.
Proof.
  unfold resolve, coordinates.
  set (lat := parseFloat (str_or (latitude spot) "0")).
  set (lng := parseFloat (str_or (longitude spot) "0")).
  rewrite <- negb_andb.
  destruct (truthy lat && truthy lng) eqn:E; cbn [negb].
  - rewrite E. split; [discriminate | intros [H _]; discriminate H].
  - unfold DISTRICT_COORDINATES_get.
    destruct (assoc (district spot) DISTRICT_COORDINATES) as [[clat clng]|].
    + split; [|intros (_ & H & _); discriminate H].
      destruct (truthy clat && truthy clng); discriminate.
    + destruct (existsb (String.eqb (district spot)) Object_prototype) eqn:Ex.
      * split; [intros _|reflexivity].
        split; [reflexivity|]. split; [reflexivity|].
        apply existsb_exists in Ex as (k & Hin & Hk).
        apply String.eqb_eq in Hk. rewrite Hk. exact Hin.
      * rewrite E. split; [discriminate|]. intros (_ & _ & Hin).
        assert (existsb (String.eqb (district spot)) Object_prototype = true)
          as Ex'.
        { apply existsb_exists. exists (district spot).
          split; [exact Hin | apply String.eqb_refl]. }
        congruence.
Qed.

Lemma markers_from_stop (n : nat) (before after : list TouristSpot)
    (bad : TouristSpot) :
  raises before = false -> resolve bad = raised ->
  markers_from n (before ++ bad :: after) = markers_from n before /\
  processed (before ++ bad :: after) = before /\
  raises (before ++ bad :: after) = true.
Proof.
  intros Hb Hbad. revert n. unfold raises in *.
  induction before as [|s l IH]; intros n; simpl in *.
  - rewrite Hbad. repeat split.
  - destruct (resolve s) eqn:E; simpl in *; try discriminate.
    + destruct (IH Hb (S n)) as (-> & -> & ->). repeat split.
    + destruct (IH Hb n) as (-> & -> & ->). repeat split.
Qed.

(** X19. A record raises a TypeError in the loop exactly when one of its
    coordinates parses to zero or [NaN] and its district is the name of a
    property inherited from [Object.prototype]. The run then ends there:
    the markers of the records before it are on the map, none of the
    records after it is placed, and the viewport stays as it was. *)
Theorem raising_record_stops_the_run
    (leaflet : LeafletMap -> LatLngBounds -> call)
    (before after : list TouristSpot)
    (bad : TouristSpot) (r : Refs) (m : LeafletMap) :
  reachable leaflet r ->
  mapInstanceRef r = Some m ->
  raises before = false ->
  truthy (parseFloat (str_or (latitude bad) "0"))
  && truthy (parseFloat (str_or (longitude bad) "0")) = false ->
  In (district bad) Object_prototype ->
  let result := sync leaflet true (before ++ bad :: after) r in
  snd result = TypeError /\
  map content (surface (fst result)) = derived before /\
  viewport (fst result) = Some (view m).
Proof.
  intros Hreach Hm Hb Hfalsy Hproto. cbn zeta.
  pose proof (reachable_tracked _ r Hreach) as Htr.
  assert (resolve bad = raised) as Hbad.
  { apply resolve_raised_iff. split; [exact Hfalsy|]. split; [|exact Hproto].
    destruct (assoc (district bad) DISTRICT_COORDINATES) eqn:E; [|reflexivity].
    exfalso. apply assoc_In, (in_map fst) in E. rewrite table_keys in E.
    simpl in E, Hproto.
    repeat (destruct Hproto as [Hproto|Hproto];
            [rewrite <- Hproto in E; simpl in E;
             repeat (destruct E as [E|E]; [discriminate E|]); exact E|]).
    exact Hproto. }
  rewrite (sync_mounted leaflet _ r m Htr Hm). cbn zeta.
  unfold surface, viewport.
  destruct (markers_from_stop (allocated r) before after bad Hb Hbad)
    as (-> & _ & ->).
  simpl.
  split; [reflexivity|]. split; [|reflexivity].
  rewrite markers_from_content, (processed_all _ Hb). reflexivity.
Qed.

Lemma raising_record_stops_the_run_witness :
  reachable Samples.well_behaved Samples.shown /\
  (exists m, mapInstanceRef Samples.shown = Some m) /\
  raises [Samples.stray; Samples.kedung_ombo] = false /\
  In (district Samples.inherited_name) Object_prototype /\
  snd (sync Samples.well_behaved true
            ([Samples.stray; Samples.kedung_ombo]
             ++ Samples.inherited_name :: [Samples.bledug_kuwu])
            Samples.shown) = TypeError /\
  map content
      (surface (fst (sync Samples.well_behaved true
                          ([Samples.stray; Samples.kedung_ombo]
                           ++ Samples.inherited_name
                              :: [Samples.bledug_kuwu])
                          Samples.shown)))
  = derived [Samples.stray; Samples.kedung_ombo].
Proof.
  assert (raises [Samples.stray; Samples.kedung_ombo] = false) as Hb
      by reflexivity.
  assert (In (district Samples.inherited_name) Object_prototype) as Hp
      by (simpl; tauto).
  split; [exact shown_reachable|]. split; [eexists; reflexivity|].
  split; [exact Hb|]. split; [exact Hp|].
  destruct (raising_record_stops_the_run Samples.well_behaved
              [Samples.stray; Samples.kedung_ombo] [Samples.bledug_kuwu]
              Samples.inherited_name Samples.shown _
              shown_reachable eq_refl Hb eq_refl Hp) as (Ho & Hc & _).
  split; [exact Ho | exact Hc].
Defined.

End Raising.

(** ** The map object *)

Section MapLifecycle.

Import MapComponent.

Lemma on_map_tiles (f : LeafletMap -> LeafletMap) (r : Refs) (m : LeafletMap) :
  (forall m0, tiles (f m0) = tiles m0) ->
  mapInstanceRef (on_map f r) = Some m ->
  exists m0, mapInstanceRef r = Some m0 /\ tiles m = tiles m0.
Proof.
  intros Hf. unfold on_map. simpl.
  destruct (mapInstanceRef r) as [m0|]; simpl; [|discriminate].
  intros [= <-]. exists m0. split; [reflexivity | apply Hf].
Qed.

(** X20. In every state the component can be in, a mounted map carries the
    one tile layer it was created with: no effect adds a second one or
    takes it off, whatever happens to markers and viewport. A map is
    created with no marker and the default view, and only when none is
    mounted. *)
Theorem one_tile_layer (leaflet : LeafletMap -> LatLngBounds -> call)
    (r : Refs) (m : LeafletMap) :
  reachable leaflet r ->
  mapInstanceRef r = Some m ->
  tiles m = [osm] /\
  (forall container L,
      mount container L r = r) /\
  (forall container L m',
      mapInstanceRef (mount container L (unmount r)) = Some m' ->
      m' = {| tiles := [osm]; layers := [];
              view := setView default_center 10 |}).
Proof.
  intros Hreach Hm. split; [|split].
  - revert m Hm.
    induction Hreach as [|container L r Hr IH|r _ _|L spots r Hr IH|v r _ IH];
      intros m Hm.
    + discriminate Hm.
    + unfold mount in Hm. destruct (mapInstanceRef r) as [m0|] eqn:E.
      * apply IH. congruence.
      * destruct (container && L); [|congruence].
        simpl in Hm. injection Hm as <-. reflexivity.
    + discriminate Hm.
    + pose proof (reachable_tracked _ r Hr) as Htr.
      destruct (mapInstanceRef r) as [m0|] eqn:E.
      * destruct L.
        -- destruct (sync_markers leaflet spots r m0 Htr E) as (_ & _ & _ & Ht).
           rewrite Hm in Ht. injection Ht as ->. apply IH. reflexivity.
        -- rewrite sync_idle in Hm by auto. simpl in Hm.
           apply IH. congruence.
      * rewrite sync_idle in Hm by auto. simpl in Hm. congruence.
    + apply on_map_tiles in Hm as (m0 & Hm0 & ->); [|reflexivity].
      apply IH, Hm0.
  - intros container L. unfold mount. rewrite Hm. reflexivity.
  - intros container L m'. unfold mount, unmount. simpl.
    destruct (container && L); simpl; [|discriminate].
    intros [= <-]. reflexivity.
Qed.

Lemma one_tile_layer_witness :
  reachable Samples.well_behaved Samples.shown /\
  exists m, mapInstanceRef Samples.shown = Some m /\ tiles m = [osm].
Proof.
  split; [exact shown_reachable|].
  eexists. split; [reflexivity|].
  eapply (one_tile_layer Samples.well_behaved Samples.shown).
  - exact shown_reachable.
  - reflexivity.
Defined.

End MapLifecycle.
